(** * mpegflow: motion-vector grid aggregation and temporal interpolation

    A shallow embedding of [src/main.cpp]: the [FrameInfo] grid frame, the
    aggregation of motion vectors into 16x16-pixel cells, the static
    [prev] buffer of [output_vectors_std] with its interpolation rule, the
    raw output mode, the end-of-stream flush of [main] and the packet
    draining loop of [read_packets]. *)

From Stdlib Require Import ZArith List Bool Lia Ascii.
From Stdlib Require String.
Import String.StringSyntax.
Import ListNotations.
Local Open Scope Z_scope.
Delimit Scope string_scope with string.

(** ** Machine integers

    [int] values are kept in [Z]; every [int] the program computes from
    motion vectors is a difference of two [int16_t] fields or the half of a
    sum of two such values, so no [int] operation leaves the 32-bit range.
    [size_t] is the 64-bit unsigned type (the program prints it with [%lu]);
    a conversion to it wraps modulo 2^64.  Integer division is C++'s, which
    truncates toward zero: [Z.quot]. *)

Definition SIZE_T_MODULUS : Z := 2 ^ 64.

Definition to_size_t (z : Z) : Z := z mod SIZE_T_MODULUS.

(** [for (int i = 0; i < n; i++) body(i)] on a loop state of type [T]. *)
Fixpoint for_from {T : Type} (count : nat) (i : Z) (body : Z -> T -> T) (s : T) : T :=
  match count with
  | O => s
  | S count' => for_from count' (i + 1) body (body i s)
  end.

Definition for_range {T : Type} (n : Z) (body : Z -> T -> T) (s : T) : T :=
  for_from (Z.to_nat n) 0 body s.

(** ** FrameInfo *)

Definition GRID_STEP : Z := 16.
Definition MAX_GRID_SIZE : Z := 512.

(** [T a[MAX_GRID_SIZE][MAX_GRID_SIZE]], read by index. *)
Definition matrix (T : Type) : Type := Z -> Z -> T.

Definition matrix_set {T : Type} (m : matrix T) (i j : Z) (v : T) : matrix T :=
  fun i' j' => if (i' =? i) && (j' =? j) then v else m i' j'.

Record FrameInfo : Type := mkFrameInfo {
  dx : matrix Z;
  dy : matrix Z;
  occupancy : matrix bool;
  Pts : Z;
  FrameIndex : Z;
  PictType : ascii;
  Shape : Z * Z;
  Empty : bool
}.

Definition set_dx (f : FrameInfo) (i j v : Z) : FrameInfo :=
  mkFrameInfo (matrix_set (dx f) i j v) (dy f) (occupancy f)
              (Pts f) (FrameIndex f) (PictType f) (Shape f) (Empty f).

Definition set_dy (f : FrameInfo) (i j v : Z) : FrameInfo :=
  mkFrameInfo (dx f) (matrix_set (dy f) i j v) (occupancy f)
              (Pts f) (FrameIndex f) (PictType f) (Shape f) (Empty f).

Definition set_occupancy (f : FrameInfo) (i j : Z) (v : bool) : FrameInfo :=
  mkFrameInfo (dx f) (dy f) (matrix_set (occupancy f) i j v)
              (Pts f) (FrameIndex f) (PictType f) (Shape f) (Empty f).

Definition set_Empty (f : FrameInfo) (v : bool) : FrameInfo :=
  mkFrameInfo (dx f) (dy f) (occupancy f)
              (Pts f) (FrameIndex f) (PictType f) (Shape f) v.

(** The constructor zeroes the three matrices and sets [Empty]; the caller
    assigns [FrameIndex], [Pts], [PictType] and [Shape] right after it, so
    the embedding takes them as arguments. *)
Definition new_FrameInfo (frameIndex pts : Z) (pictType : ascii) (shape : Z * Z) : FrameInfo :=
  mkFrameInfo (fun _ _ => 0) (fun _ _ => 0) (fun _ _ => false)
              pts frameIndex pictType shape true.

(** [this->InterpolateFlow(prev, next)].  The receiver is a different object
    from both arguments at the only call site, so [prev] and [next] are read
    unmodified throughout the loops.  The loops stay inside the arrays as
    long as [Shape] is at most [MAX_GRID_SIZE] in both directions. *)
Definition InterpolateFlow_cell (prev next : FrameInfo) (i j : Z) (this : FrameInfo) : FrameInfo :=
  let this := set_dx this i j (Z.quot (dx prev i j + dx next i j) 2) in
  set_dy this i j (Z.quot (dy prev i j + dy next i j) 2).

Definition InterpolateFlow (this prev next : FrameInfo) : FrameInfo :=
  let this := set_Empty this false in
  for_range (fst (Shape this))
    (fun i this =>
       for_range (snd (Shape this)) (fun j this => InterpolateFlow_cell prev next i j this) this)
    this.

(** ** Output

    Every [printf] of the program whose format ends in a newline writes one
    line; a row of a grid is written value by value ([%d] and a tab) and
    closed by a newline of its own.  A line is kept with the values it
    carries, in the order of the format string. *)
Inductive line : Type :=
| RawHeader (pts frame_index : Z) (pict_type : ascii) (count : Z)
| RawVector (mv_src_x mv_src_y mvdx mvdy : Z)
| ArrangedHeader (pts frame_index : Z) (pict_type : ascii) (rows cols : Z)
| Row (values : list Z).

Definition Print_rows (m : matrix Z) (shape : Z * Z) (out : list line) : list line :=
  for_range (fst shape)
    (fun i out => out ++ [Row (for_range (snd shape) (fun j row => row ++ [m i j]) [])])
    out.

Definition Print (this : FrameInfo) : list line :=
  let out := [ArrangedHeader (Pts this) (FrameIndex this) (PictType this)
                             (fst (Shape this)) (snd (Shape this))] in
  let out := Print_rows (dx this) (Shape this) out in
  Print_rows (dy this) (Shape this) out.

(** ** Motion vectors

    The fields of libavutil's [AVMotionVector] the program reads; all four
    are [int16_t] there. *)
Record AVMotionVector : Type := mkMV {
  src_x : Z;
  src_y : Z;
  dst_x : Z;
  dst_y : Z
}.

Definition int16 (z : Z) : Prop := -32768 <= z <= 32767.

Definition mv_wf (mv : AVMotionVector) : Prop :=
  int16 (src_x mv) /\ int16 (src_y mv) /\ int16 (dst_x mv) /\ int16 (dst_y mv).

(** ** output_vectors_raw *)

Definition output_vectors_raw (frameIndex pts : Z) (pictType : ascii)
    (motionVectors : list AVMotionVector) : list line :=
  let out := [RawHeader pts frameIndex pictType (Z.of_nat (length motionVectors))] in
  for_range (Z.of_nat (length motionVectors))
    (fun i out =>
       let mv := nth (Z.to_nat i) motionVectors (mkMV 0 0 0 0) in
       let mvdx := src_x mv - dst_x mv in
       let mvdy := src_y mv - dst_y mv in
       out ++ [RawVector (src_x mv) (src_y mv) mvdx mvdy])
    out.

(** ** output_vectors_std *)

Definition make_Shape (frameWidth frameHeight : Z) : Z * Z :=
  (to_size_t (Z.min (Z.quot frameHeight GRID_STEP) MAX_GRID_SIZE),
   to_size_t (Z.min (Z.quot frameWidth GRID_STEP) MAX_GRID_SIZE)).

(** [max(size_t(0), min(idx, extent - 1))], all in [size_t]. *)
Definition clip_index (idx extent : Z) : Z :=
  Z.max (to_size_t 0) (Z.min idx (to_size_t (extent - 1))).

Definition cell_row (mv : AVMotionVector) (shape : Z * Z) : Z :=
  clip_index (to_size_t (Z.quot (src_y mv) GRID_STEP)) (fst shape).

Definition cell_col (mv : AVMotionVector) (shape : Z * Z) : Z :=
  clip_index (to_size_t (Z.quot (src_x mv) GRID_STEP)) (snd shape).

(** One turn of the loop over the vectors.  An index past the end of the
    arrays is an out-of-bounds store, which has no defined result: [None]. *)
Definition assign_vector (mv : AVMotionVector) (cur : FrameInfo) : option FrameInfo :=
  let mvdx := src_x mv - dst_x mv in
  let mvdy := src_y mv - dst_y mv in
  let i_clipped := cell_row mv (Shape cur) in
  let j_clipped := cell_col mv (Shape cur) in
  if (i_clipped <? MAX_GRID_SIZE) && (j_clipped <? MAX_GRID_SIZE) then
    let cur := set_Empty cur false in
    let cur := set_dx cur i_clipped j_clipped mvdx in
    let cur := set_dy cur i_clipped j_clipped mvdy in
    Some (set_occupancy cur i_clipped j_clipped false)
  else None.

Fixpoint assign_vectors (motionVectors : list AVMotionVector) (cur : FrameInfo)
    : option FrameInfo :=
  match motionVectors with
  | [] => Some cur
  | mv :: rest =>
      match assign_vector mv cur with
      | Some cur' => assign_vectors rest cur'
      | None => None
      end
  end.

(** The first half of the function: the frame [cur] as it stands after the
    loop over the vectors. *)
Definition aggregate (frameIndex pts : Z) (pictType : ascii)
    (motionVectors : list AVMotionVector) (frameWidth frameHeight : Z) : option FrameInfo :=
  assign_vectors motionVectors
    (new_FrameInfo frameIndex pts pictType (make_Shape frameWidth frameHeight)).

Definition is_empty {A : Type} (l : list A) : bool :=
  match l with [] => true | _ => false end.

(** The second half of the function, from [if (!motionVectors.empty())] to
    [prev.push_back(cur)]: [prev] is the static vector, and the second
    component of the result lists the frames on which [Print] is called, in
    order.  [InterpolateFlow] changes [prev.back()] in place, and the vector
    is cleared right after the changed frame is printed. *)
Definition emit (prev : list FrameInfo) (cur : FrameInfo) (frameIndex : Z)
    (motionVectors : list AVMotionVector) : list FrameInfo * list FrameInfo :=
  let '(prev, printed) :=
    if negb (is_empty motionVectors) then
      let printed :=
        match prev with
        | [front; back] =>
            if negb (Empty front)
            then [InterpolateFlow back front cur]
            else prev
        | _ => prev
        end in
      ([], printed ++ [cur])
    else (prev, []) in
  let printed := if frameIndex =? -1 then printed ++ prev else printed in
  (prev ++ [cur], printed).

Definition output_vectors_std (prev : list FrameInfo) (frameIndex pts : Z) (pictType : ascii)
    (motionVectors : list AVMotionVector) (frameWidth frameHeight : Z)
    : option (list FrameInfo * list FrameInfo) :=
  match aggregate frameIndex pts pictType motionVectors frameWidth frameHeight with
  | Some cur => Some (emit prev cur frameIndex motionVectors)
  | None => None
  end.

(** ** main, grid mode

    What one successful [read_frame] leaves in [pts], [pictType] and
    [motionVectors]; a failing [read_frame] leaves the three untouched. *)
Definition decoded : Type := (Z * ascii * list AVMotionVector)%type.

Definition mvs_of (d : decoded) : list AVMotionVector := snd d.

(** The [for] loop of [main] from [frameIndex] on, over the frames that
    [read_frame] delivers. *)
Fixpoint main_loop_std (frames : list decoded) (frameIndex : Z)
    (prev printed : list FrameInfo) (frameWidth frameHeight : Z)
    : option (list FrameInfo * list FrameInfo) :=
  match frames with
  | [] => Some (prev, printed)
  | (pts, pictType, motionVectors) :: rest =>
      match output_vectors_std prev frameIndex pts pictType motionVectors
                               frameWidth frameHeight with
      | Some (prev', now) =>
          main_loop_std rest (frameIndex + 1) prev' (printed ++ now) frameWidth frameHeight
      | None => None
      end
  end.

(** The closing call [output_vectors_std(-1, pts, pictType, motionVectors, ...)]:
    the three variables still hold what the last successful [read_frame]
    wrote ([pts0], [pictType0] and the empty vector if there was none). *)
Definition flush_call (frames : list decoded) (pts0 : Z) (pictType0 : ascii)
    (prev : list FrameInfo) (frameWidth frameHeight : Z)
    : option (list FrameInfo * list FrameInfo) :=
  let '(pts, pictType, motionVectors) := last frames (pts0, pictType0, []) in
  output_vectors_std prev (-1) pts pictType motionVectors frameWidth frameHeight.

Definition main_std (frames : list decoded) (pts0 : Z) (pictType0 : ascii)
    (frameWidth frameHeight : Z) : option (list FrameInfo) :=
  match main_loop_std frames 1 [] [] frameWidth frameHeight with
  | Some (prev, printed) =>
      match flush_call frames pts0 pictType0 prev frameWidth frameHeight with
      | Some (_, now) => Some (printed ++ now)
      | None => None
      end
  | None => None
  end.

(** The static [prev] when the frames have been processed. *)
Definition buffer_after (frames : list decoded) (frameWidth frameHeight : Z)
    : option (list FrameInfo) :=
  option_map fst (main_loop_std frames 1 [] [] frameWidth frameHeight).

(** ** main, raw mode *)
Fixpoint main_loop_raw (frames : list decoded) (frameIndex : Z) : list line :=
  match frames with
  | [] => []
  | (pts, pictType, motionVectors) :: rest =>
      output_vectors_raw frameIndex pts pictType motionVectors
        ++ main_loop_raw rest (frameIndex + 1)
  end.

Definition main_raw (frames : list decoded) : list line := main_loop_raw frames 1.

(** ** read_packets

    The fields of [AVPacket] the program reads; [data] is the address of the
    first byte not yet consumed. *)
Record AVPacket : Type := mkPacket {
  stream_index : Z;
  data : Z;
  size : Z
}.

(** The calls the packet loop makes to the demuxer and the decoder, in the
    order it makes them: [av_read_frame] with the packet it delivered, if
    any; [avcodec_decode_video2] with the packet view it was offered and the
    two results [ret] and [got_frame]; [av_free_packet] with the packet
    given up. *)
Inductive call : Type :=
| Read (delivered : option AVPacket)
| Decode (offered : AVPacket) (ret got_frame : Z)
| Free (given_up : AVPacket).

(** The packet [pkt] holds when [av_read_frame] fails: it was zeroed at
    start-up or by [av_free_packet] before the call, and the failed call
    hands back no data. *)
Definition blank_packet : AVPacket := mkPacket 0 0 0.

Definition av_free_packet (p : AVPacket) : AVPacket := mkPacket (stream_index p) 0 0.

(** [pkt->data += ret; pkt->size -= ret]. *)
Definition advance (p : AVPacket) (ret : Z) : AVPacket :=
  mkPacket (stream_index p) (data p + ret) (size p - ret).

(** The statics of [read_packets]. *)
Record statics : Type := mkStatics {
  initialized : bool;
  pkt : AVPacket;
  pktCopy : AVPacket
}.

Definition initial_statics : statics := mkStatics false blank_packet blank_packet.

Section FrameSource.
(** The decoder is the external collaborator: from its own state and the
    packet offered it answers [ret], [got_frame] and its next state (the
    decoded picture is part of that state). *)
Variable decoder : Type.
Variable avcodec_decode_video2 : decoder -> AVPacket -> Z * Z * decoder.
Variable videoStreamIndex : Z.

(** What a call of [read_packets] leaves behind: its result, the statics,
    the packets still in the container, the decoder and the calls made. *)
Record outcome : Type := mkOutcome {
  returned : bool;
  after : statics;
  container : list AVPacket;
  dec : decoder;
  calls : list call
}.

Definition process_frame (p : AVPacket) (d : decoder) : bool * AVPacket * decoder * call :=
  let '(ret, got_frame, d') := avcodec_decode_video2 d p in
  if ret <? 0 then (false, p, d', Decode p ret got_frame)
  else
    let ret' := Z.min ret (size p) in
    (0 <? got_frame, advance p ret', d', Decode p ret got_frame).

Definition earlier (events : list call) (o : outcome) : outcome :=
  mkOutcome (returned o) (after o) (container o) (dec o) (events ++ calls o).

(** The [while (true)] loop and the [return] after it; [q] is what the
    container still holds.  Every turn that does not leave the loop takes
    a packet from the container. *)
Fixpoint read_packets_loop (q : list AVPacket) (s : statics) (d : decoder) : outcome :=
  let attempt :=
    if initialized s then
      let '(got, pktCopy', d', ev) := process_frame (pktCopy s) d in
      if got
      then inl (mkOutcome true (mkStatics true (pkt s) pktCopy') q d' [ev])
      else inr (mkStatics false (av_free_packet (pkt s)) pktCopy', d', [ev; Free (pkt s)])
    else inr (s, d, []) in
  match attempt with
  | inl o => o
  | inr (s, d, events) =>
      match q with
      | [] =>
          let '(got, pkt', d', ev) := process_frame blank_packet d in
          mkOutcome got (mkStatics (initialized s) pkt' (pktCopy s)) [] d'
                    (events ++ [Read None; ev])
      | p :: q' =>
          if negb (stream_index p =? videoStreamIndex)
          then earlier (events ++ [Read (Some p); Free p])
                       (read_packets_loop q' (mkStatics false (av_free_packet p) p) d)
          else earlier (events ++ [Read (Some p)])
                       (read_packets_loop q' (mkStatics true p p) d)
      end
  end.

Definition read_packets (s : statics) (q : list AVPacket) (d : decoder) : outcome :=
  read_packets_loop q s d.

(** The calls made by the first [n] pulls of [main]'s loop, which stops at
    the first pull that returns [false]. *)
Fixpoint pulls (n : nat) (s : statics) (q : list AVPacket) (d : decoder) : list call :=
  match n with
  | O => []
  | S n' =>
      let o := read_packets s q d in
      calls o ++ (if returned o then pulls n' (after o) (container o) (dec o) else [])
  end.

(** An attempt yields a frame when the decoder reports no error and
    [got_frame]. *)
Definition yields_frame (ret got_frame : Z) : Prop := 0 <= ret /\ 0 < got_frame.

(** The packet loop as a machine with two phases, given by the call
    sequences it can make from each.  [Awaiting]: no packet is held.
    [Draining p]: the view [p] of a packet of the target stream is the next
    thing offered to the decoder.  A sequence may stop between two pulls. *)
Inductive phase : Type :=
| Awaiting
| Draining (p : AVPacket).

Inductive accepts : phase -> list call -> Prop :=
| stop (ph : phase) : accepts ph []
| other_stream (p : AVPacket) (t : list call) :
    stream_index p <> videoStreamIndex -> accepts Awaiting t ->
    accepts Awaiting (Read (Some p) :: Free p :: t)
| target_stream (p : AVPacket) (t : list call) :
    stream_index p = videoStreamIndex -> accepts (Draining p) t ->
    accepts Awaiting (Read (Some p) :: t)
| end_frame (ret got_frame : Z) (t : list call) :
    yields_frame ret got_frame -> accepts Awaiting t ->
    accepts Awaiting (Read None :: Decode blank_packet ret got_frame :: t)
| end_done (ret got_frame : Z) :
    ~ yields_frame ret got_frame ->
    accepts Awaiting [Read None; Decode blank_packet ret got_frame]
| frame (p : AVPacket) (ret got_frame : Z) (t : list call) :
    yields_frame ret got_frame ->
    accepts (Draining (advance p (Z.min ret (size p)))) t ->
    accepts (Draining p) (Decode p ret got_frame :: t)
| given_up (p original : AVPacket) (ret got_frame : Z) (t : list call) :
    ~ yields_frame ret got_frame -> accepts Awaiting t ->
    accepts (Draining p) (Decode p ret got_frame :: Free original :: t).

(** The phase the statics stand for between two pulls. *)
Definition phase_of (s : statics) : phase :=
  if initialized s then Draining (pktCopy s) else Awaiting.
End FrameSource.

(** ** Vocabulary of the statements *)

(** The fields a loop over cells leaves alone. *)
Definition same_header (f g : FrameInfo) : Prop :=
  occupancy g = occupancy f /\ Pts g = Pts f /\ FrameIndex g = FrameIndex f /\
  PictType g = PictType f /\ Shape g = Shape f /\ Empty g = Empty f.

(** What [InterpolateFlow] stores in a cell. *)
Definition avg_dx (prev next : FrameInfo) (i j : Z) : Z := Z.quot (dx prev i j + dx next i j) 2.
Definition avg_dy (prev next : FrameInfo) (i j : Z) : Z := Z.quot (dy prev i j + dy next i j) 2.

Definition in_shape (shape : Z * Z) (r c : Z) : Prop :=
  0 <= r < fst shape /\ 0 <= c < snd shape.

(** Cell bookkeeping for the aggregation statements. *)
Definition hits (shape : Z * Z) (r c : Z) (mv : AVMotionVector) : Prop :=
  cell_row mv shape = r /\ cell_col mv shape = c.

(** The clipping of a pixel coordinate as the specification words it, on
    mathematical integers: [clip(floor(src / 16), 0, extent - 1)]. *)
Definition spec_clip (src extent : Z) : Z :=
  Z.max 0 (Z.min (src / GRID_STEP) (extent - 1)).

(** The line [output_vectors_raw] prints for one vector. *)
Definition vector_line (mv : AVMotionVector) : line :=
  RawVector (src_x mv) (src_y mv) (src_x mv - dst_x mv) (src_y mv - dst_y mv).

(** A frame no vector was assigned to: marked empty, dx and dy all zero. *)
Definition blank (f : FrameInfo) : Prop :=
  Empty f = true /\ forall r c, dx f r c = 0 /\ dy f r c = 0.

Definition no_vectors (d : decoded) : Prop := mvs_of d = [].

(** The grid frames built for a run of vector-less frames numbered from
    [frameIndex] on. *)
Fixpoint blank_frames (run : list decoded) (frameIndex : Z) (shape : Z * Z) : list FrameInfo :=
  match run with
  | [] => []
  | (pts, pictType, _) :: rest =>
      new_FrameInfo frameIndex pts pictType shape :: blank_frames rest (frameIndex + 1) shape
  end.

(** The values an [int] cell can take: differences of two [int16_t]. *)
Definition cell_bound (f : FrameInfo) : Prop :=
  forall r c, -65535 <= dx f r c <= 65535 /\ -65535 <= dy f r c <= 65535.

(** The indices [0, 1, ..., n-1] a [for] loop runs through. *)
Definition indices (n : Z) : list Z := map Z.of_nat (seq 0 (Z.to_nat n)).

(** ** Sample streams

    A 32x32 stream has a 2x2 grid.  [sample_frame] is the grid frame the
    aggregation builds for frame [k] of such a stream. *)
Definition sample_frame (k : Z) (motionVectors : list AVMotionVector) : FrameInfo :=
  match aggregate k k "P" motionVectors 32 32 with
  | Some f => f
  | None => new_FrameInfo k k "P" (0, 0)
  end.

Definition sample_prev : FrameInfo := sample_frame 1 [mkMV 0 0 1 3].
Definition sample_gap : FrameInfo := sample_frame 2 [].
Definition sample_cur : FrameInfo := sample_frame 3 [mkMV 0 0 0 0].

Definition sample_phantom : FrameInfo :=
  match aggregate (-1) 1 "P" [mkMV 0 0 1 3] 32 32 with
  | Some f => f
  | None => new_FrameInfo (-1) 1 "P" (0, 0)
  end.

(** Frame 1 carries a vector, frame 2 none, frame 3 a vector again. *)
Definition sample_stream : list decoded :=
  [(1, "P"%char, [mkMV 0 0 1 3]); (2, "P"%char, []); (3, "P"%char, [mkMV 0 0 0 0])].

(** Three frames without vectors. *)
Definition sample_gaps : list decoded :=
  [(1, "P"%char, []); (2, "P"%char, []); (3, "P"%char, [])].

(** Two vectors of one frame in cell (0,0). *)
Definition sample_two : list AVMotionVector := [mkMV 0 0 1 3; mkMV 5 5 2 2].

(** A stream of one frame, which carries a vector. *)
Definition sample_single : list decoded := [(1, "P"%char, [mkMV 0 0 1 3])].

(** A decoder that takes one byte for each attempt and completes a picture
    with the last byte of a packet, and a container with a single packet of
    two bytes, on stream 0. *)
Definition sample_decoder (d : unit) (p : AVPacket) : Z * Z * unit :=
  (1, if size p =? 1 then 1 else 0, d).

Definition sample_packet : AVPacket := mkPacket 0 1000 2.

(** ** ffmpeg_init

    What the function reads of a stream of the container: the codec type,
    whether a decoder for it is found and opens with motion-vector export
    ([pCodec != NULL] and [avcodec_open2(...) >= 0]), and the picture size. *)
Definition AVMEDIA_TYPE_VIDEO : Z := 0.

Record AVStream : Type := mkStream {
  codec_type : Z;
  codec_opens : bool;
  width : Z;
  height : Z
}.

(** How the function ends: by a [runtime_error] with its message, or with
    [videoStreamIndex], [frameWidth] and [frameHeight] assigned. *)
Inductive init_result : Type :=
| Thrown (what : String.string)
| Initialized (videoStreamIndex frameWidth frameHeight : Z).

(** The [for] loop over the streams from stream [i] on, entered with
    [videoStreamIndex] still -1: it leaves with the message of a throw, or
    with the index found ([-1] if none) and the two sizes, which keep the
    values [w0] and [h0] they had if no video stream is met. *)
Fixpoint ffmpeg_init_loop (streams : list AVStream) (i : Z) (w0 h0 : Z)
    : String.string + Z * Z * Z :=
  match streams with
  | [] => inr (-1, w0, h0)
  | st :: rest =>
      if (AVMEDIA_TYPE_VIDEO =? codec_type st) && (-1 <? 0) then
        if negb (codec_opens st)
        then inl "Codec not found or cannot open codec."%string
        else inr (i, to_size_t (width st), to_size_t (height st))
      else ffmpeg_init_loop rest (i + 1) w0 h0
  end.

(** [open_input] and [find_stream_info] are the values returned by
    [avformat_open_input] and [avformat_find_stream_info]. *)
Definition ffmpeg_init (open_input find_stream_info : Z) (streams : list AVStream)
    (w0 h0 : Z) : init_result :=
  if negb (open_input =? 0)
  then Thrown "Couldn't open file. Possibly it doesn't exist."%string
  else if find_stream_info <? 0
  then Thrown "Stream information not found."%string
  else
    match ffmpeg_init_loop streams 0 w0 h0 with
    | inl what => Thrown what
    | inr (videoStreamIndex, frameWidth, frameHeight) =>
        if videoStreamIndex =? -1
        then Thrown "Video stream not found."%string
        else Initialized videoStreamIndex frameWidth frameHeight
    end.

(** ** main: the arguments

    The loop over [argv[1]], [argv[2]], ...: the two variables it sets. *)
Definition parse_arguments (args : list String.string) : bool * option String.string :=
  fold_left
    (fun (state : bool * option String.string) (arg : String.string) =>
       let '(ARG_OUTPUT_RAW_MOTION_VECTORS, ARG_VIDEO_PATH) := state in
       if String.eqb arg "--raw"
       then (true, ARG_VIDEO_PATH)
       else (ARG_OUTPUT_RAW_MOTION_VECTORS, Some arg))
    args (false, None).

(** What follows the loop: the usage message on the error stream and
    [exit(1)], or the run with the mode and the path. *)
Inductive start : Type :=
| Usage (exit_code : Z)
| Run (raw : bool) (videoPath : String.string).

Definition main_arguments (args : list String.string) : start :=
  match parse_arguments args with
  | (_, None) => Usage 1
  | (raw, Some videoPath) => Run raw videoPath
  end.

(** ** read_frame and the loop of main

    What [read_frame] reads of the decoded frame: the two timestamps, the
    character [av_get_picture_type_char] gives for its picture type, and the
    motion-vector side data, if there is any, as the array of
    [sd->size / sizeof(AVMotionVector)] records it holds. *)
Definition AV_NOPTS_VALUE : Z := - 2 ^ 63.

(** [pts] is an [int64_t].  [to_int64 z] is the value such a variable holds
    when the exact result of the arithmetic is [z]: [z] itself inside the
    range of the type, and outside of it the two's complement wrap-around
    of the addition of the machine. *)
Definition INT64_MIN : Z := - 2 ^ 63.
Definition INT64_MAX : Z := 2 ^ 63 - 1.
Definition to_int64 (z : Z) : Z := (z + 2 ^ 63) mod 2 ^ 64 - 2 ^ 63.

Record AVFrame : Type := mkFrame {
  pkt_pts : Z;
  pkt_dts : Z;
  pict_type_char : ascii;
  motion_vectors_side_data : option (list AVMotionVector)
}.

Section Reading.
Variable decoder : Type.
Variable avcodec_decode_video2 : decoder -> AVPacket -> Z * Z * decoder.
Variable videoStreamIndex : Z.
(** The frame [pFrame] as the decoder left it. *)
Variable pFrame : decoder -> AVFrame.

(** [vars] holds [pts], [pictType] and [motion_vectors], passed by
    reference; the result is the value returned, the three variables, and
    what [read_packets] left. *)
Definition read_frame (s : statics) (q : list AVPacket) (d : decoder) (vars : decoded)
    : bool * decoded * outcome decoder :=
  let o := read_packets decoder avcodec_decode_video2 videoStreamIndex s q d in
  if negb (returned decoder o) then (false, vars, o)
  else
    let '(pts, _, _) := vars in
    let f := pFrame (dec decoder o) in
    let pictType := pict_type_char f in
    let pts :=
      if negb (pkt_pts f =? AV_NOPTS_VALUE) then pkt_pts f
      else if negb (pkt_dts f =? AV_NOPTS_VALUE) then pkt_dts f
      else to_int64 (pts + 1) in
    let motion_vectors :=
      match motion_vectors_side_data f with
      | Some mvs => mvs
      | None => []
      end in
    (true, (pts, pictType, motion_vectors), o).

(** The frames the successive calls of [read_frame] deliver until one
    returns [false]; [None] if that does not happen within [fuel] calls. *)
Fixpoint frames_read (fuel : nat) (s : statics) (q : list AVPacket) (d : decoder)
    (vars : decoded) : option (list decoded) :=
  match fuel with
  | O => None
  | S fuel' =>
      let '(ok, vars', o) := read_frame s q d vars in
      if ok
      then option_map (cons vars')
             (frames_read fuel' (after decoder o) (container decoder o) (dec decoder o) vars')
      else Some []
  end.

(** The frames the first [n] calls of [read_frame] deliver, up to the first
    call that returns [false]: defined whether or not the reading ends. *)
Fixpoint frames_delivered (n : nat) (s : statics) (q : list AVPacket) (d : decoder)
    (vars : decoded) : list decoded :=
  match n with
  | O => []
  | S n' =>
      let '(ok, vars', o) := read_frame s q d vars in
      if ok
      then vars' ::
           frames_delivered n' (after decoder o) (container decoder o) (dec decoder o) vars'
      else []
  end.

(** The [for] loop of [main] and the closing call after it, with the text
    written to the standard output.  The outer [None] is a loop that does
    not end within [fuel] calls of [read_frame], the inner one a store
    outside the arrays. *)
Fixpoint main_for (fuel : nat) (ARG_OUTPUT_RAW_MOTION_VECTORS : bool) (frameIndex : Z)
    (s : statics) (q : list AVPacket) (d : decoder) (vars : decoded)
    (prev : list FrameInfo) (out : list line) (frameWidth frameHeight : Z)
    : option (option (list line)) :=
  match fuel with
  | O => None
  | S fuel' =>
      let '(ok, vars', o) := read_frame s q d vars in
      if ok then
        let '(pts, pictType, motionVectors) := vars' in
        if ARG_OUTPUT_RAW_MOTION_VECTORS then
          main_for fuel' ARG_OUTPUT_RAW_MOTION_VECTORS (frameIndex + 1)
                   (after decoder o) (container decoder o) (dec decoder o) vars' prev
                   (out ++ output_vectors_raw frameIndex pts pictType motionVectors)
                   frameWidth frameHeight
        else
          match output_vectors_std prev frameIndex pts pictType motionVectors
                                   frameWidth frameHeight with
          | Some (prev', now) =>
              main_for fuel' ARG_OUTPUT_RAW_MOTION_VECTORS (frameIndex + 1)
                       (after decoder o) (container decoder o) (dec decoder o) vars' prev'
                       (out ++ flat_map Print now) frameWidth frameHeight
          | None => Some None
          end
      else
        if negb ARG_OUTPUT_RAW_MOTION_VECTORS then
          let '(pts, pictType, motionVectors) := vars in
          match output_vectors_std prev (-1) pts pictType motionVectors
                                   frameWidth frameHeight with
          | Some (_, now) => Some (Some (out ++ flat_map Print now))
          | None => Some None
          end
        else Some (Some out)
  end.
End Reading.

(** ** Vocabulary of the further statements *)

(** The limits of [int]. *)
Definition INT_MIN : Z := - 2 ^ 31.
Definition INT_MAX : Z := 2 ^ 31 - 1.

(** Two frames that stand for the same decoded frame: same index, timestamp,
    picture type and shape. *)
Definition same_tags (f g : FrameInfo) : Prop :=
  FrameIndex g = FrameIndex f /\ Pts g = Pts f /\ PictType g = PictType f /\
  Shape g = Shape f.

(** A stream of 24x8 pixels, less than one cell high, and one of 40x50. *)
Definition sample_low : Z * Z := (24, 8).
Definition sample_dims : Z * Z := (40, 50).

(** [f] carries the tags of the decoded frame numbered [frameIndex]. *)
Definition stands_for (f : FrameInfo) (frameIndex pts : Z) (pictType : ascii)
    (frameWidth frameHeight : Z) : Prop :=
  FrameIndex f = frameIndex /\ Pts f = pts /\ PictType f = pictType /\
  Shape f = make_Shape frameWidth frameHeight.

(** [f] is the grid frame the aggregation builds for the frame at position
    [k] of the stream (counted from 0; its frame index is [k + 1]). *)
Definition frame_at (frames : list decoded) (k : nat) (frameWidth frameHeight : Z)
    (f : FrameInfo) : Prop :=
  exists pts pictType mvs,
    nth_error frames k = Some (pts, pictType, mvs) /\
    aggregate (Z.of_nat k + 1) pts pictType mvs frameWidth frameHeight = Some f.

(** [f] is the interpolation of the frame at position [k + 1], which has no
    vectors, between the frames at positions [k] and [k + 2], which have. *)
Definition lone_gap_at (frames : list decoded) (k : nat) (frameWidth frameHeight : Z)
    (f : FrameInfo) : Prop :=
  exists a g c,
    frame_at frames k frameWidth frameHeight a /\ Empty a = false /\
    frame_at frames (k + 1) frameWidth frameHeight g /\ Empty g = true /\
    frame_at frames (k + 2) frameWidth frameHeight c /\ Empty c = false /\
    f = InterpolateFlow g a c.

(** The packets a sequence of calls took from the container, in order. *)
Fixpoint delivered (t : list call) : list AVPacket :=
  match t with
  | [] => []
  | Read (Some p) :: t' => p :: delivered t'
  | _ :: t' => delivered t'
  end.

(** [p] is what is left of the packet [orig] after some of its first bytes
    were consumed: same stream, same end, a start not before the packet's,
    and a size that is not negative. *)
Definition view_of (orig p : AVPacket) : Prop :=
  stream_index p = stream_index orig /\ data orig <= data p /\
  data p + size p = data orig + size orig /\ 0 <= size p.

(** A decoder that completes a picture at every attempt and takes two bytes
    for it, and a container of three packets: one of stream 1 and two of
    stream 0. *)
Definition sample_eager_decoder (d : unit) (p : AVPacket) : Z * Z * unit := (2, 1, d).

Definition sample_container : list AVPacket :=
  [mkPacket 1 500 7; mkPacket 0 1000 3; mkPacket 0 2000 4].

(** [p] is the empty packet of the final drain, or what is left of a packet
    of the container [Q] that belongs to the target stream. *)
Definition offered_from (videoStreamIndex : Z) (Q : list AVPacket) (p : AVPacket) : Prop :=
  p = blank_packet \/
  exists orig, In orig Q /\ stream_index orig = videoStreamIndex /\ view_of orig p.

(** While a packet is being drained, [pktCopy] is what is left of a packet
    of [Q] that belongs to the target stream. *)
Definition holds_view (videoStreamIndex : Z) (Q : list AVPacket) (s : statics) : Prop :=
  initialized s = true ->
  exists orig, In orig Q /\ stream_index orig = videoStreamIndex /\ view_of orig (pktCopy s).

(** [st] is a video stream; [before ++ st :: later] splits the streams at
    the first video stream. *)
Definition is_video (st : AVStream) : Prop := codec_type st = AVMEDIA_TYPE_VIDEO.

Definition first_video (streams before : list AVStream) (st : AVStream)
    (later : list AVStream) : Prop :=
  streams = before ++ st :: later /\ Forall (fun s => ~ is_video s) before /\ is_video st.

(** An audio stream, a video stream whose decoder does not open and one
    whose decoder opens. *)
Definition sample_audio : AVStream := mkStream 1 true 0 0.
Definition sample_video_closed : AVStream := mkStream 0 false 640 480.
Definition sample_video : AVStream := mkStream 0 true 320 240.

(** A decoder that takes a whole packet at once and completes a picture from
    every packet that is not empty, and frames without timestamps or side
    data. *)
Definition sample_whole_decoder (d : unit) (p : AVPacket) : Z * Z * unit :=
  (size p, if 0 <? size p then 1 else 0, d).

Definition sample_untimed (d : unit) : AVFrame :=
  mkFrame AV_NOPTS_VALUE AV_NOPTS_VALUE "P" None.

Definition has_vectors (d : decoded) : Prop := mvs_of d <> [].

(** Two frames that both carry a vector. *)
Definition sample_pair : list decoded :=
  [(1, "P"%char, [mkMV 0 0 1 3]); (2, "P"%char, [mkMV 0 0 0 0])].

(** * Properties *)

(** ** The interpolation loops *)

Ltac bool_cases :=
  repeat match goal with
  | |- context [Z.eqb ?a ?b] => destruct (Z.eqb_spec a b)
  | |- context [Z.leb ?a ?b] => destruct (Z.leb_spec a b)
  | |- context [Z.ltb ?a ?b] => destruct (Z.ltb_spec a b)
  end; simpl; try reflexivity; try lia.

Lemma same_header_refl f : same_header f f.
Proof. repeat split. Qed.

Lemma same_header_trans f g h : same_header f g -> same_header g h -> same_header f h.
Proof.
  unfold same_header. intros (?&?&?&?&?&?) (?&?&?&?&?&?).
  repeat split; congruence.
Qed.

Section Interpolation.
Variables prev next : FrameInfo.

Lemma inner_loop (i : Z) (n : nat) : forall (j0 : Z) (f : FrameInfo),
  let f' := for_from n j0 (InterpolateFlow_cell prev next i) f in
  (forall r c, dx f' r c =
     if (r =? i) && ((j0 <=? c) && (c <? j0 + Z.of_nat n)) then avg_dx prev next r c else dx f r c) /\
  (forall r c, dy f' r c =
     if (r =? i) && ((j0 <=? c) && (c <? j0 + Z.of_nat n)) then avg_dy prev next r c else dy f r c) /\
  same_header f f'.
Proof.
  induction n as [|n IH]; intros j0 f; cbn [for_from].
  - repeat split; intros; bool_cases.
  - destruct (IH (j0 + 1) (InterpolateFlow_cell prev next i j0 f)) as (Hx & Hy & Hh).
    split; [|split].
    + intros r c. rewrite Hx. cbn [InterpolateFlow_cell set_dy set_dx dx]. unfold matrix_set.
      bool_cases; subst; reflexivity.
    + intros r c. rewrite Hy. cbn [InterpolateFlow_cell set_dy set_dx dy]. unfold matrix_set.
      bool_cases; subst; reflexivity.
    + eapply same_header_trans; [|exact Hh]. repeat split.
Qed.

Lemma outer_loop (cols : Z) (n : nat) : forall (i0 : Z) (f : FrameInfo),
  snd (Shape f) = cols ->
  let f' := for_from n i0
              (fun i this => for_range (snd (Shape this)) (InterpolateFlow_cell prev next i) this)
              f in
  (forall r c, dx f' r c =
     if ((i0 <=? r) && (r <? i0 + Z.of_nat n)) && ((0 <=? c) && (c <? cols))
     then avg_dx prev next r c else dx f r c) /\
  (forall r c, dy f' r c =
     if ((i0 <=? r) && (r <? i0 + Z.of_nat n)) && ((0 <=? c) && (c <? cols))
     then avg_dy prev next r c else dy f r c) /\
  same_header f f'.
Proof.
  induction n as [|n IH]; intros i0 f Hc; cbn [for_from].
  - repeat split; intros; bool_cases.
  - unfold for_range at 2.
    destruct (inner_loop i0 (Z.to_nat (snd (Shape f))) 0 f) as (Hx & Hy & Hh).
    set (g := for_from (Z.to_nat (snd (Shape f))) 0 (InterpolateFlow_cell prev next i0) f) in *.
    assert (Hg : snd (Shape g) = cols).
    { destruct Hh as (_&_&_&_&Hs&_). rewrite Hs. exact Hc. }
    destruct (IH (i0 + 1) g Hg) as (Hx' & Hy' & Hh').
    split; [|split].
    + intros r c. rewrite Hx', Hx, Hc. bool_cases.
    + intros r c. rewrite Hy', Hy, Hc. bool_cases.
    + eapply same_header_trans; eassumption.
Qed.

(** Closed form of [InterpolateFlow]: inside [Shape] the cells are the
    truncated halves of the neighbours' sums, outside nothing moves. *)
Lemma InterpolateFlow_cells (this : FrameInfo) :
  let f' := InterpolateFlow this prev next in
  (forall r c, dx f' r c =
     if ((0 <=? r) && (r <? fst (Shape this))) && ((0 <=? c) && (c <? snd (Shape this)))
     then avg_dx prev next r c else dx this r c) /\
  (forall r c, dy f' r c =
     if ((0 <=? r) && (r <? fst (Shape this))) && ((0 <=? c) && (c <? snd (Shape this)))
     then avg_dy prev next r c else dy this r c) /\
  occupancy f' = occupancy this /\ Pts f' = Pts this /\ FrameIndex f' = FrameIndex this /\
  PictType f' = PictType this /\ Shape f' = Shape this /\ Empty f' = false.
Proof.
  unfold InterpolateFlow, for_range.
  destruct (outer_loop (snd (Shape this)) (Z.to_nat (fst (Shape (set_Empty this false)))) 0
              (set_Empty this false) eq_refl) as (Hx & Hy & Hh).
  cbn [set_Empty Shape dx dy fst snd] in *.
  split; [|split].
  - intros r c. rewrite Hx. bool_cases.
  - intros r c. rewrite Hy. bool_cases.
  - destruct Hh as (?&?&?&?&?&?). cbn in *. repeat split; assumption.
Qed.
End Interpolation.

(** ** Interpolation arithmetic *)

Lemma sample_frames_aggregated :
  aggregate 1 1 "P" [mkMV 0 0 1 3] 32 32 = Some sample_prev /\
  aggregate 2 2 "P" [] 32 32 = Some sample_gap /\
  aggregate 3 3 "P" [mkMV 0 0 0 0] 32 32 = Some sample_cur.
Proof. repeat split. Qed.

(** C1, as stated, fails: with [prev] holding (-1, -3) in cell (0,0) and
    [cur] holding (0, 0) there, both non-empty and of shape 2x2, the
    interpolated gap cell is (0, -1), while the floors of the halved sums
    are (-1, -2). *)
Lemma InterpolateFlow_not_floor :
  Empty sample_prev = false /\ Empty sample_cur = false /\
  Shape sample_prev = (2, 2) /\ Shape sample_gap = (2, 2) /\ Shape sample_cur = (2, 2) /\
  dx sample_prev 0 0 + dx sample_cur 0 0 = -1 /\
  dy sample_prev 0 0 + dy sample_cur 0 0 = -3 /\
  dx (InterpolateFlow sample_gap sample_prev sample_cur) 0 0 = 0 /\
  (dx sample_prev 0 0 + dx sample_cur 0 0) / 2 = -1 /\
  dy (InterpolateFlow sample_gap sample_prev sample_cur) 0 0 = -1 /\
  (dy sample_prev 0 0 + dy sample_cur 0 0) / 2 = -2.
Proof. repeat split. Qed.

(** C1, amended: for every cell (r,c) of the gap frame's shape,
    [InterpolateFlow] stores the sum of the two neighbours' values divided by
    two with C++ integer division, which truncates toward zero, for dx and
    for dy independently; this is the floor of the half exactly when the sum
    is non-negative or even, and one above the floor when the sum is negative
    and odd. *)
Theorem InterpolateFlow_truncated_half (gap prev cur : FrameInfo) (r c : Z) :
  in_shape (Shape gap) r c ->
  let gap' := InterpolateFlow gap prev cur in
  let sx := dx prev r c + dx cur r c in
  let sy := dy prev r c + dy cur r c in
  dx gap' r c = Z.quot sx 2 /\ dy gap' r c = Z.quot sy 2 /\
  (0 <= sx \/ sx mod 2 = 0 -> dx gap' r c = sx / 2) /\
  (0 <= sy \/ sy mod 2 = 0 -> dy gap' r c = sy / 2) /\
  (sx < 0 /\ sx mod 2 = 1 -> dx gap' r c = sx / 2 + 1) /\
  (sy < 0 /\ sy mod 2 = 1 -> dy gap' r c = sy / 2 + 1).
Proof.
  intros [Hr Hc] gap' sx sy.
  destruct (InterpolateFlow_cells prev cur gap) as (Hx & Hy & _).
  assert (Ex : dx gap' r c = Z.quot sx 2).
  { subst gap'. rewrite Hx. unfold avg_dx. bool_cases. }
  assert (Ey : dy gap' r c = Z.quot sy 2).
  { subst gap'. rewrite Hy. unfold avg_dy. bool_cases. }
  assert (Q : forall s, (0 <= s \/ s mod 2 = 0 -> Z.quot s 2 = s / 2) /\
                        (s < 0 /\ s mod 2 = 1 -> Z.quot s 2 = s / 2 + 1)).
  { intros s.
    pose proof (Z.quot_rem' s 2) as Hq.
    pose proof (Z.div_mod s 2 ltac:(lia)) as Hd.
    pose proof (Z.mod_pos_bound s 2 ltac:(lia)) as Hm.
    split.
    - intros [Hs|Hs].
      + pose proof (Z.rem_bound_pos s 2 Hs ltac:(lia)). lia.
      + destruct (Z_lt_le_dec s 0) as [Hn|Hn].
        * pose proof (Z.rem_bound_pos_neg s 2 ltac:(lia) ltac:(lia)). lia.
        * pose proof (Z.rem_bound_pos s 2 Hn ltac:(lia)). lia.
    - intros [Hn Hs]. pose proof (Z.rem_bound_pos_neg s 2 ltac:(lia) ltac:(lia)). lia. }
  rewrite Ex, Ey.
  repeat split; try apply Q.
Qed.

Lemma InterpolateFlow_truncated_half_witness :
  in_shape (Shape sample_gap) 0 0 /\
  (dx sample_prev 0 0 + dx sample_cur 0 0 < 0 /\
   (dx sample_prev 0 0 + dx sample_cur 0 0) mod 2 = 1) /\
  dx (InterpolateFlow sample_gap sample_prev sample_cur) 0 0
    = Z.quot (dx sample_prev 0 0 + dx sample_cur 0 0) 2 /\
  dx (InterpolateFlow sample_gap sample_prev sample_cur) 0 0
    = (dx sample_prev 0 0 + dx sample_cur 0 0) / 2 + 1.
Proof.
  assert (H : in_shape (Shape sample_gap) 0 0) by (vm_compute; repeat split; discriminate).
  assert (Hodd : dx sample_prev 0 0 + dx sample_cur 0 0 < 0 /\
                 (dx sample_prev 0 0 + dx sample_cur 0 0) mod 2 = 1)
    by (vm_compute; split; reflexivity).
  split; [exact H|]. split; [exact Hodd|].
  pose proof (InterpolateFlow_truncated_half sample_gap sample_prev sample_cur 0 0 H) as T.
  split.
  - exact (proj1 T).
  - exact (proj1 (proj2 (proj2 (proj2 (proj2 T)))) Hodd).
Defined.

(** ** Frame effect of the interpolation *)

(** C7, as stated, fails: the gap frame of the sample stream was assigned
    zero vectors and is marked empty, and interpolating it clears the flag. *)
Lemma InterpolateFlow_clears_Empty :
  aggregate 2 2 "P" [] 32 32 = Some sample_gap /\
  Empty sample_gap = true /\
  Empty (InterpolateFlow sample_gap sample_prev sample_cur) = false.
Proof. repeat split. Qed.

(** ** Aggregation *)

Lemma to_size_t_small (z : Z) : 0 <= z < SIZE_T_MODULUS -> to_size_t z = z.
Proof. intros H. unfold to_size_t. apply Z.mod_small. exact H. Qed.

Lemma to_size_t_range (z : Z) : 0 <= to_size_t z < SIZE_T_MODULUS.
Proof. unfold to_size_t. apply Z.mod_pos_bound. reflexivity. Qed.

Lemma clip_index_range (idx extent : Z) :
  0 <= idx -> 1 <= extent <= MAX_GRID_SIZE ->
  0 <= clip_index idx extent <= extent - 1.
Proof.
  intros Hi He. unfold clip_index, MAX_GRID_SIZE in *.
  rewrite (to_size_t_small 0) by (unfold SIZE_T_MODULUS; lia).
  rewrite (to_size_t_small (extent - 1)) by (unfold SIZE_T_MODULUS; lia).
  lia.
Qed.

Lemma grid_extent_range (pixels : Z) :
  16 <= pixels ->
  1 <= to_size_t (Z.min (Z.quot pixels GRID_STEP) MAX_GRID_SIZE) <= MAX_GRID_SIZE.
Proof.
  intros H. unfold GRID_STEP, MAX_GRID_SIZE.
  assert (1 <= Z.quot pixels 16).
  { rewrite Z.quot_div_nonneg by lia. apply Z.div_le_lower_bound; lia. }
  rewrite to_size_t_small by (unfold SIZE_T_MODULUS; lia). lia.
Qed.

Lemma make_Shape_range (frameWidth frameHeight : Z) :
  16 <= frameWidth -> 16 <= frameHeight ->
  1 <= fst (make_Shape frameWidth frameHeight) <= MAX_GRID_SIZE /\
  1 <= snd (make_Shape frameWidth frameHeight) <= MAX_GRID_SIZE.
Proof. intros Hw Hh. split; apply grid_extent_range; assumption. Qed.

Lemma cell_in_shape (mv : AVMotionVector) (shape : Z * Z) :
  1 <= fst shape <= MAX_GRID_SIZE -> 1 <= snd shape <= MAX_GRID_SIZE ->
  0 <= cell_row mv shape <= fst shape - 1 /\ 0 <= cell_col mv shape <= snd shape - 1.
Proof.
  intros Hr Hc. unfold cell_row, cell_col.
  split; apply clip_index_range; try assumption; apply to_size_t_range.
Qed.

Lemma assign_vector_inv (mv : AVMotionVector) (cur cur' : FrameInfo) :
  assign_vector mv cur = Some cur' ->
  dx cur' = matrix_set (dx cur) (cell_row mv (Shape cur)) (cell_col mv (Shape cur))
                       (src_x mv - dst_x mv) /\
  dy cur' = matrix_set (dy cur) (cell_row mv (Shape cur)) (cell_col mv (Shape cur))
                       (src_y mv - dst_y mv) /\
  Pts cur' = Pts cur /\ FrameIndex cur' = FrameIndex cur /\ PictType cur' = PictType cur /\
  Shape cur' = Shape cur /\ Empty cur' = false.
Proof.
  unfold assign_vector.
  destruct ((cell_row mv (Shape cur) <? MAX_GRID_SIZE) && (cell_col mv (Shape cur) <? MAX_GRID_SIZE));
    [|discriminate].
  intros E. injection E as <-. repeat split.
Qed.

Lemma assign_vector_total (mv : AVMotionVector) (cur : FrameInfo) :
  1 <= fst (Shape cur) <= MAX_GRID_SIZE -> 1 <= snd (Shape cur) <= MAX_GRID_SIZE ->
  exists cur', assign_vector mv cur = Some cur'.
Proof.
  intros Hr Hc. destruct (cell_in_shape mv (Shape cur) Hr Hc) as [Hi Hj].
  unfold assign_vector.
  replace (cell_row mv (Shape cur) <? MAX_GRID_SIZE) with true by (symmetry; apply Z.ltb_lt; lia).
  replace (cell_col mv (Shape cur) <? MAX_GRID_SIZE) with true by (symmetry; apply Z.ltb_lt; lia).
  eexists. reflexivity.
Qed.

Lemma assign_vectors_header (mvs : list AVMotionVector) : forall cur cur',
  assign_vectors mvs cur = Some cur' ->
  Pts cur' = Pts cur /\ FrameIndex cur' = FrameIndex cur /\ PictType cur' = PictType cur /\
  Shape cur' = Shape cur /\ Empty cur' = is_empty mvs && Empty cur.
Proof.
  induction mvs as [|mv rest IH]; intros cur cur' E; cbn [assign_vectors] in E.
  - injection E as <-. repeat split.
  - destruct (assign_vector mv cur) as [c1|] eqn:E1; [|discriminate].
    apply assign_vector_inv in E1. destruct E1 as (_&_&Hp&Hi&Ht&Hs&He).
    destruct (IH _ _ E) as (Hp'&Hi'&Ht'&Hs'&He').
    repeat split; try congruence.
    rewrite He', He. cbn. apply andb_false_r.
Qed.

Lemma assign_vectors_total (mvs : list AVMotionVector) : forall cur,
  1 <= fst (Shape cur) <= MAX_GRID_SIZE -> 1 <= snd (Shape cur) <= MAX_GRID_SIZE ->
  exists cur', assign_vectors mvs cur = Some cur'.
Proof.
  induction mvs as [|mv rest IH]; intros cur Hr Hc; cbn [assign_vectors].
  - eexists. reflexivity.
  - destruct (assign_vector_total mv cur Hr Hc) as [c1 E1]. rewrite E1.
    apply assign_vector_inv in E1. destruct E1 as (_&_&_&_&_&Hs&_).
    apply IH; rewrite Hs; assumption.
Qed.

Lemma aggregate_total (frameIndex pts : Z) (pictType : ascii) (mvs : list AVMotionVector)
    (frameWidth frameHeight : Z) :
  16 <= frameWidth -> 16 <= frameHeight ->
  exists cur, aggregate frameIndex pts pictType mvs frameWidth frameHeight = Some cur.
Proof.
  intros Hw Hh. unfold aggregate.
  destruct (make_Shape_range frameWidth frameHeight Hw Hh).
  apply assign_vectors_total; assumption.
Qed.

Lemma aggregate_header (frameIndex pts : Z) (pictType : ascii) (mvs : list AVMotionVector)
    (frameWidth frameHeight : Z) (cur : FrameInfo) :
  aggregate frameIndex pts pictType mvs frameWidth frameHeight = Some cur ->
  Pts cur = pts /\ FrameIndex cur = frameIndex /\ PictType cur = pictType /\
  Shape cur = make_Shape frameWidth frameHeight /\ Empty cur = is_empty mvs.
Proof.
  unfold aggregate. intros E. apply assign_vectors_header in E.
  destruct E as (?&?&?&?&He). cbn in *. rewrite andb_true_r in He. repeat split; assumption.
Qed.

(** C7, amended: interpolating a gap frame overwrites its dx and dy cells
    inside its shape and sets its empty flag to false; the timestamp, the
    frame index, the picture-type tag, the shape, the occupancy matrix and
    the dx and dy cells outside the shape are kept.  The empty flag of a
    frame as the aggregation built it is true exactly when zero vectors were
    assigned to it, whatever the values of the vectors; after interpolation
    it is false although no vector was assigned. *)
Theorem InterpolateFlow_frame_effect (gap prev cur : FrameInfo) :
  let gap' := InterpolateFlow gap prev cur in
  Pts gap' = Pts gap /\ FrameIndex gap' = FrameIndex gap /\ PictType gap' = PictType gap /\
  Shape gap' = Shape gap /\ occupancy gap' = occupancy gap /\
  Empty gap' = false /\
  (forall r c, ~ in_shape (Shape gap) r c ->
     dx gap' r c = dx gap r c /\ dy gap' r c = dy gap r c) /\
  (forall frameIndex pts pictType motionVectors frameWidth frameHeight f,
     aggregate frameIndex pts pictType motionVectors frameWidth frameHeight = Some f ->
     (Empty f = true <-> motionVectors = [])).
Proof.
  intros gap'.
  destruct (InterpolateFlow_cells prev cur gap) as (Hx & Hy & Ho & Hp & Hi & Ht & Hs & He).
  repeat (split; [assumption|]). split.
  - intros r c H. unfold in_shape in H. subst gap'. rewrite Hx, Hy. split; bool_cases.
  - intros frameIndex pts pictType mvs w h f E.
    apply aggregate_header in E. destruct E as (_&_&_&_&E). rewrite E.
    destruct mvs; cbn; split; congruence.
Qed.

Lemma InterpolateFlow_frame_effect_witness :
  ~ in_shape (Shape sample_gap) 2 0 /\
  dx (InterpolateFlow sample_gap sample_prev sample_cur) 2 0 = dx sample_gap 2 0 /\
  aggregate 2 2 "P" [] 32 32 = Some sample_gap /\
  (Empty sample_gap = true <-> @nil AVMotionVector = []).
Proof.
  assert (H : ~ in_shape (Shape sample_gap) 2 0).
  { intros [[_ H] _]. vm_compute in H. discriminate. }
  split; [exact H|].
  pose proof (InterpolateFlow_frame_effect sample_gap sample_prev sample_cur) as E.
  split.
  - exact (proj1 (proj1 (proj2 (proj2 (proj2 (proj2 (proj2 (proj2 E)))))) 2 0 H)).
  - split; [reflexivity|].
    exact (proj2 (proj2 (proj2 (proj2 (proj2 (proj2 (proj2 E)))))) 2 2 "P"%char [] 32 32
             sample_gap eq_refl).
Defined.

(** ** Target cell of a vector *)

(** The code's clipping against the specification's, by the sign of the
    source coordinate: they agree from -15 upwards and part below. *)
Lemma clip_nonneg_source (src extent : Z) :
  1 <= extent <= MAX_GRID_SIZE -> 0 <= src -> int16 src ->
  clip_index (to_size_t (Z.quot src GRID_STEP)) extent = spec_clip src extent.
Proof.
  intros Hs H0 [_ H1]. unfold clip_index, spec_clip, GRID_STEP, MAX_GRID_SIZE in *.
  rewrite Z.quot_div_nonneg by lia.
  assert (0 <= src / 16 <= 32767).
  { split; [apply Z.div_pos; lia|]. apply Z.div_le_upper_bound; lia. }
  rewrite !to_size_t_small by (unfold SIZE_T_MODULUS; lia). reflexivity.
Qed.

Lemma clip_just_below_zero (src extent : Z) :
  1 <= extent <= MAX_GRID_SIZE -> -16 < src < 0 ->
  clip_index (to_size_t (Z.quot src GRID_STEP)) extent = 0 /\ spec_clip src extent = 0.
Proof.
  intros Hs H0. unfold clip_index, spec_clip, GRID_STEP, MAX_GRID_SIZE in *.
  assert (Hq : Z.quot src 16 = 0) by (apply Z.quot_small_iff; lia).
  assert (Hd : src / 16 = -1).
  { symmetry. apply (Z.div_unique src 16 (-1) (src + 16)); lia. }
  rewrite Hq, Hd, !to_size_t_small by (unfold SIZE_T_MODULUS; lia). lia.
Qed.

Lemma clip_negative_source (src extent : Z) :
  1 <= extent <= MAX_GRID_SIZE -> src <= -16 -> int16 src ->
  clip_index (to_size_t (Z.quot src GRID_STEP)) extent = extent - 1 /\
  spec_clip src extent = 0.
Proof.
  intros Hs H0 [H1 _]. unfold clip_index, spec_clip, GRID_STEP, MAX_GRID_SIZE in *.
  assert (Hq : -2048 <= Z.quot src 16 <= -1).
  { rewrite <- (Z.opp_involutive src), Z.quot_opp_l by lia.
    rewrite Z.quot_div_nonneg by lia.
    assert (1 <= - src / 16) by (apply Z.div_le_lower_bound; lia).
    assert (- src / 16 <= 2048) by (apply Z.div_le_upper_bound; lia).
    lia. }
  assert (Hd : src / 16 <= -1).
  { assert (src / 16 < 0) by (apply Z.div_lt_upper_bound; lia). lia. }
  assert (Hw : to_size_t (Z.quot src 16) = SIZE_T_MODULUS + Z.quot src 16).
  { unfold to_size_t. symmetry. apply (Z.mod_unique _ _ (-1)); unfold SIZE_T_MODULUS; lia. }
  rewrite Hw, !to_size_t_small by (unfold SIZE_T_MODULUS; lia).
  unfold SIZE_T_MODULUS. lia.
Qed.

(** In a stream of at least 16x16 pixels every vector is stored inside the
    shape, whatever its source. *)
Lemma cell_inside_grid (mv : AVMotionVector) (frameWidth frameHeight : Z) :
  16 <= frameWidth -> 16 <= frameHeight ->
  in_shape (make_Shape frameWidth frameHeight)
           (cell_row mv (make_Shape frameWidth frameHeight))
           (cell_col mv (make_Shape frameWidth frameHeight)).
Proof.
  intros Hw Hh. destruct (make_Shape_range frameWidth frameHeight Hw Hh) as [Hr Hc].
  destruct (cell_in_shape mv _ Hr Hc). unfold in_shape. lia.
Qed.

(** C4, the code at the failing input: in a 64x64 stream (a 4x4 grid) a
    vector whose source is (-16, -16) is stored in cell (3, 3), the last row
    and column, where the specified clipping gives cell (0, 0); the
    quotient -1 is converted to [size_t] before it is clipped, so it is the
    upper bound that catches it. *)
Theorem negative_source_lands_in_last_cell :
  make_Shape 64 64 = (4, 4) /\
  cell_row (mkMV (-16) (-16) 0 0) (make_Shape 64 64) = 3 /\
  cell_col (mkMV (-16) (-16) 0 0) (make_Shape 64 64) = 3 /\
  spec_clip (-16) 4 = 0 /\
  exists cur, aggregate 1 0 "P" [mkMV (-16) (-16) 0 0] 64 64 = Some cur /\
              dx cur 3 3 = -16 /\ dy cur 3 3 = -16 /\ dx cur 0 0 = 0 /\ dy cur 0 0 = 0.
Proof.
  repeat split. eexists. split; [reflexivity|]. repeat split.
Qed.

(** ** Last write wins *)

Lemma assign_vectors_app (l1 l2 : list AVMotionVector) : forall cur,
  assign_vectors (l1 ++ l2) cur =
  match assign_vectors l1 cur with
  | Some mid => assign_vectors l2 mid
  | None => None
  end.
Proof.
  induction l1 as [|mv l1 IH]; intros cur; cbn [app assign_vectors].
  - reflexivity.
  - destruct (assign_vector mv cur); [apply IH|reflexivity].
Qed.

Lemma matrix_set_same {T : Type} (m : matrix T) (i j : Z) (v : T) :
  matrix_set m i j v i j = v.
Proof. unfold matrix_set. rewrite !Z.eqb_refl. reflexivity. Qed.

Lemma matrix_set_other {T : Type} (m : matrix T) (i j : Z) (v : T) (r c : Z) :
  ~ (i = r /\ j = c) -> matrix_set m i j v r c = m r c.
Proof.
  intros H. unfold matrix_set.
  destruct (Z.eqb_spec r i), (Z.eqb_spec c j); cbn; try reflexivity.
  exfalso. apply H. split; congruence.
Qed.

(** A cell that none of the vectors maps to keeps its value. *)
Lemma assign_vectors_untouched (r c : Z) (mvs : list AVMotionVector) : forall cur cur',
  assign_vectors mvs cur = Some cur' ->
  (forall u, In u mvs -> ~ hits (Shape cur) r c u) ->
  dx cur' r c = dx cur r c /\ dy cur' r c = dy cur r c.
Proof.
  induction mvs as [|mv rest IH]; intros cur cur' E Hn; cbn [assign_vectors] in E.
  - injection E as <-. split; reflexivity.
  - destruct (assign_vector mv cur) as [c1|] eqn:E1; [|discriminate].
    apply assign_vector_inv in E1. destruct E1 as (Hx&Hy&_&_&_&Hs&_).
    destruct (IH c1 cur' E) as [Hx' Hy'].
    { intros u Hu. rewrite Hs. apply Hn. right. exact Hu. }
    rewrite Hx', Hy', Hx, Hy.
    assert (Hm : ~ hits (Shape cur) r c mv) by (apply Hn; left; reflexivity).
    split; apply matrix_set_other; exact Hm.
Qed.

(** ** The buffer of output_vectors_std *)

Lemma new_FrameInfo_blank (frameIndex pts : Z) (pictType : ascii) (shape : Z * Z) :
  blank (new_FrameInfo frameIndex pts pictType shape).
Proof. split; [reflexivity|]. intros r c. split; reflexivity. Qed.

(** A frame without vectors is queued behind the buffered ones; nothing is
    printed unless the call is the closing one. *)
Lemma output_vectors_std_no_vectors (prev : list FrameInfo) (frameIndex pts : Z)
    (pictType : ascii) (frameWidth frameHeight : Z) :
  output_vectors_std prev frameIndex pts pictType [] frameWidth frameHeight =
  Some (prev ++ [new_FrameInfo frameIndex pts pictType (make_Shape frameWidth frameHeight)],
        if frameIndex =? -1 then prev else []).
Proof. reflexivity. Qed.

(** A frame with vectors empties the buffer and is left alone in it. *)
Lemma output_vectors_std_vectors (prev : list FrameInfo) (frameIndex pts : Z)
    (pictType : ascii) (mvs : list AVMotionVector) (frameWidth frameHeight : Z) (cur : FrameInfo) :
  mvs <> [] ->
  aggregate frameIndex pts pictType mvs frameWidth frameHeight = Some cur ->
  exists before,
    output_vectors_std prev frameIndex pts pictType mvs frameWidth frameHeight
      = Some ([cur], before ++ [cur]) /\
    before = match prev with
             | [front; back] =>
                 if negb (Empty front) then [InterpolateFlow back front cur] else prev
             | _ => prev
             end.
Proof.
  intros Hne Hcur. unfold output_vectors_std. rewrite Hcur. unfold emit.
  destruct mvs; [congruence|]. cbn [is_empty negb].
  eexists. split; [|reflexivity].
  destruct (frameIndex =? -1); [rewrite app_nil_r|]; reflexivity.
Qed.

Lemma output_vectors_std_total (prev : list FrameInfo) (frameIndex pts : Z)
    (pictType : ascii) (mvs : list AVMotionVector) (frameWidth frameHeight : Z) :
  16 <= frameWidth -> 16 <= frameHeight ->
  exists prev' printed,
    output_vectors_std prev frameIndex pts pictType mvs frameWidth frameHeight
      = Some (prev', printed).
Proof.
  intros Hw Hh. unfold output_vectors_std.
  destruct (aggregate_total frameIndex pts pictType mvs frameWidth frameHeight Hw Hh) as [cur ->].
  destruct (emit prev cur frameIndex mvs) as [p o]. eauto.
Qed.

Lemma main_loop_std_total (frameWidth frameHeight : Z) (frames : list decoded) :
  16 <= frameWidth -> 16 <= frameHeight ->
  forall frameIndex prev printed,
  exists prev' printed',
    main_loop_std frames frameIndex prev printed frameWidth frameHeight = Some (prev', printed').
Proof.
  intros Hw Hh. induction frames as [|[[pts pictType] mvs] rest IH]; intros frameIndex prev printed.
  - cbn. eauto.
  - cbn [main_loop_std].
    destruct (output_vectors_std_total prev frameIndex pts pictType mvs _ _ Hw Hh)
      as (p & o & ->). apply IH.
Qed.

Lemma main_loop_std_app (frameWidth frameHeight : Z) (l1 l2 : list decoded) :
  forall frameIndex prev printed,
  main_loop_std (l1 ++ l2) frameIndex prev printed frameWidth frameHeight =
  match main_loop_std l1 frameIndex prev printed frameWidth frameHeight with
  | Some (prev', printed') =>
      main_loop_std l2 (frameIndex + Z.of_nat (length l1)) prev' printed' frameWidth frameHeight
  | None => None
  end.
Proof.
  induction l1 as [|[[pts pictType] mvs] rest IH]; intros frameIndex prev printed.
  - cbn. rewrite Z.add_0_r. reflexivity.
  - cbn [app main_loop_std length].
    destruct (output_vectors_std prev frameIndex pts pictType mvs frameWidth frameHeight)
      as [[p o]|]; [|reflexivity].
    rewrite IH. replace (frameIndex + 1 + Z.of_nat (length rest))
      with (frameIndex + Z.of_nat (S (length rest))) by lia. reflexivity.
Qed.

(** C8: a frame with vectors is printed as it was aggregated, as the last
    frame the call prints; in it, a cell holds the displacement of the last
    vector of the list that maps to it, whatever earlier vectors of the list
    mapped there (no sum, no average), and a cell that no vector maps to
    holds 0 in dx and in dy.  The aggregation is defined for every stream of
    at least 16x16 pixels. *)
Theorem last_vector_wins (prev : list FrameInfo) (frameIndex pts : Z) (pictType : ascii)
    (motionVectors : list AVMotionVector) (frameWidth frameHeight : Z) :
  (16 <= frameWidth -> 16 <= frameHeight ->
   exists cur, aggregate frameIndex pts pictType motionVectors frameWidth frameHeight = Some cur) /\
  forall cur,
    aggregate frameIndex pts pictType motionVectors frameWidth frameHeight = Some cur ->
    (motionVectors <> [] ->
     exists prev' before,
       output_vectors_std prev frameIndex pts pictType motionVectors frameWidth frameHeight
         = Some (prev', before ++ [cur])) /\
    (forall earlier v later,
        motionVectors = earlier ++ v :: later ->
        (forall u, In u later ->
                   ~ hits (Shape cur) (cell_row v (Shape cur)) (cell_col v (Shape cur)) u) ->
        dx cur (cell_row v (Shape cur)) (cell_col v (Shape cur)) = src_x v - dst_x v /\
        dy cur (cell_row v (Shape cur)) (cell_col v (Shape cur)) = src_y v - dst_y v) /\
    (forall r c,
        (forall u, In u motionVectors -> ~ hits (Shape cur) r c u) ->
        dx cur r c = 0 /\ dy cur r c = 0).
Proof.
  split; [apply aggregate_total|].
  intros cur Hcur.
  assert (Hshape : Shape cur = make_Shape frameWidth frameHeight)
    by (apply aggregate_header in Hcur; tauto).
  split; [|split].
  - intros Hne.
    destruct (output_vectors_std_vectors prev _ _ _ _ _ _ cur Hne Hcur) as (b & E & _).
    exists [cur], b. exact E.
  - unfold aggregate in Hcur. intros earlier v later -> Hlater.
    rewrite assign_vectors_app in Hcur.
    destruct (assign_vectors earlier _) as [mid|] eqn:E1; [|discriminate].
    cbn [assign_vectors] in Hcur.
    destruct (assign_vector v mid) as [hit|] eqn:E2; [|discriminate].
    apply assign_vectors_header in E1. destruct E1 as (_&_&_&Hs1&_). cbn [new_FrameInfo Shape] in Hs1.
    apply assign_vector_inv in E2. destruct E2 as (Hx&Hy&_&_&_&Hs2&_).
    rewrite Hshape in *. rewrite Hs1 in *.
    destruct (assign_vectors_untouched
                (cell_row v (make_Shape frameWidth frameHeight))
                (cell_col v (make_Shape frameWidth frameHeight)) later hit cur Hcur) as [Ex Ey].
    { rewrite Hs2. exact Hlater. }
    rewrite Ex, Ey, Hx, Hy, !matrix_set_same. split; reflexivity.
  - unfold aggregate in Hcur. intros r c Hnone.
    destruct (assign_vectors_untouched r c motionVectors _ cur Hcur) as [Ex Ey].
    { cbn [new_FrameInfo Shape]. rewrite <- Hshape. exact Hnone. }
    rewrite Ex, Ey. split; reflexivity.
Qed.

Lemma last_vector_wins_witness :
  16 <= 32 /\ sample_two <> [] /\
  exists cur, aggregate 1 0 "P" sample_two 32 32 = Some cur /\
              dx cur 0 0 = 3 /\ dy cur 0 0 = 3 /\ dx cur 1 1 = 0 /\ dy cur 1 1 = 0.
Proof.
  assert (Hw : 16 <= 32) by lia.
  assert (Hne : sample_two <> []) by discriminate.
  split; [exact Hw|]. split; [exact Hne|].
  destruct (last_vector_wins [] 1 0 "P" sample_two 32 32) as [Htotal Hcells].
  destruct (Htotal Hw Hw) as [cur Hagg].
  destruct (Hcells cur Hagg) as (_ & Hlast & Hzero).
  exists cur. split; [exact Hagg|].
  assert (Hs : Shape cur = (2, 2)) by (apply aggregate_header in Hagg; tauto).
  specialize (Hlast [mkMV 0 0 1 3] (mkMV 5 5 2 2) [] eq_refl
                    (fun u (H : In u []) => match H with end)).
  specialize (Hzero 1 1).
  rewrite Hs in Hlast, Hzero.
  destruct Hlast as [Hx Hy]. split; [exact Hx|]. split; [exact Hy|].
  apply Hzero. intros u [<- | [<- | []]] [H _]; vm_compute in H; discriminate.
Defined.

(** A run of frames without vectors is queued whole. *)
Lemma main_loop_std_gaps (frameWidth frameHeight : Z) (run : list decoded) :
  Forall no_vectors run ->
  forall frameIndex prev printed,
  exists printed',
    main_loop_std run frameIndex prev printed frameWidth frameHeight =
    Some (prev ++ blank_frames run frameIndex (make_Shape frameWidth frameHeight), printed').
Proof.
  induction 1 as [|[[pts pictType] mvs] rest Hx _ IH]; intros frameIndex prev printed.
  - cbn. rewrite app_nil_r. eauto.
  - unfold no_vectors, mvs_of in Hx. cbn in Hx. subst mvs.
    cbn [main_loop_std blank_frames]. rewrite output_vectors_std_no_vectors.
    destruct (IH (frameIndex + 1)
                 (prev ++ [new_FrameInfo frameIndex pts pictType (make_Shape frameWidth frameHeight)])
                 (printed ++ (if frameIndex =? -1 then prev else []))) as [o ->].
    rewrite <- app_assoc. cbn [app]. eauto.
Qed.

Lemma blank_frames_length (run : list decoded) : forall frameIndex shape,
  length (blank_frames run frameIndex shape) = length run.
Proof.
  induction run as [|[[pts pictType] mvs] rest IH]; intros; cbn; [reflexivity|].
  rewrite IH. reflexivity.
Qed.

Lemma blank_frames_blank (run : list decoded) : forall frameIndex shape,
  Forall blank (blank_frames run frameIndex shape).
Proof.
  induction run as [|[[pts pictType] mvs] rest IH]; intros; cbn; constructor.
  - apply new_FrameInfo_blank.
  - apply IH.
Qed.

(** The buffer after any stream: either the stream had no frame with
    vectors and the buffer holds a blank frame for each of its frames, or it
    holds the frame built for the last frame with vectors followed by a
    blank frame for each frame after it. *)
Lemma buffer_shape (frameWidth frameHeight : Z) (frames : list decoded) :
  forall frameIndex prev printed prev' printed',
    main_loop_std frames frameIndex prev printed frameWidth frameHeight = Some (prev', printed') ->
    (Forall no_vectors frames /\
     prev' = prev ++ blank_frames frames frameIndex (make_Shape frameWidth frameHeight)) \/
    (exists before pts pictType mvs run cur,
        frames = before ++ (pts, pictType, mvs) :: run /\ mvs <> [] /\ Forall no_vectors run /\
        aggregate (frameIndex + Z.of_nat (length before)) pts pictType mvs frameWidth frameHeight
          = Some cur /\
        prev' = cur :: blank_frames run (frameIndex + Z.of_nat (length before) + 1)
                                    (make_Shape frameWidth frameHeight)).
Proof.
  induction frames as [|d frames IH] using rev_ind; intros frameIndex prev printed prev' printed' E.
  - cbn in E. injection E as <- <-. left. split; [constructor|].
    cbn. rewrite app_nil_r. reflexivity.
  - rewrite main_loop_std_app in E.
    destruct (main_loop_std frames frameIndex prev printed frameWidth frameHeight)
      as [[p o]|] eqn:E0; [|discriminate].
    specialize (IH frameIndex prev printed p o E0).
    destruct d as [[pts pictType] mvs]. cbn [main_loop_std] in E.
    assert (Hlast : Forall no_vectors [(pts, pictType, @nil AVMotionVector)])
      by (constructor; [reflexivity|constructor]).
    destruct mvs as [|mv mvs].
    + rewrite output_vectors_std_no_vectors in E. injection E as <- _.
      destruct IH as [[Hall ->] | (before & pts' & pt' & mvs' & run & cur & -> & Hne & Hrun & Hcur & ->)].
      * left. split; [apply Forall_app; split; assumption|].
        destruct (main_loop_std_gaps frameWidth frameHeight (frames ++ [(pts, pictType, [])])
                    ltac:(apply Forall_app; split; assumption)
                    frameIndex prev printed) as [o' Hg].
        rewrite main_loop_std_app in Hg.
        destruct (main_loop_std_gaps frameWidth frameHeight frames Hall frameIndex prev printed)
          as [o'' Hg'].
        rewrite Hg' in Hg. cbn [main_loop_std] in Hg.
        rewrite output_vectors_std_no_vectors in Hg. injection Hg as Hg _. exact Hg.
      * right. exists before, pts', pt', mvs', (run ++ [(pts, pictType, [])]), cur.
        split; [rewrite <- app_assoc; reflexivity|]. split; [exact Hne|].
        split; [apply Forall_app; split; assumption|].
        split; [exact Hcur|].
        destruct (main_loop_std_gaps frameWidth frameHeight (run ++ [(pts, pictType, [])])
                    ltac:(apply Forall_app; split; assumption)
                    (frameIndex + Z.of_nat (length before) + 1) [cur] []) as [o' Hg].
        rewrite main_loop_std_app in Hg.
        destruct (main_loop_std_gaps frameWidth frameHeight run Hrun
                    (frameIndex + Z.of_nat (length before) + 1) [cur] []) as [o'' Hg'].
        rewrite Hg' in Hg. cbn [main_loop_std] in Hg.
        rewrite output_vectors_std_no_vectors in Hg. injection Hg as Hg _.
        cbn [app] in Hg. rewrite <- Hg.
        rewrite length_app. cbn [length].
        replace (frameIndex + Z.of_nat (length before + S (length run)))
          with (frameIndex + Z.of_nat (length before) + 1 + Z.of_nat (length run)) by lia.
        reflexivity.
    + destruct (aggregate (frameIndex + Z.of_nat (length frames)) pts pictType (mv :: mvs)
                  frameWidth frameHeight) as [cur|] eqn:Hcur.
      2:{ unfold output_vectors_std in E. rewrite Hcur in E. discriminate. }
      assert (Hne : mv :: mvs <> []) by discriminate.
      destruct (output_vectors_std_vectors p _ _ _ _ _ _ cur Hne Hcur) as (b & Eb & _).
      rewrite Eb in E. injection E as <- _. right.
      exists frames, pts, pictType, (mv :: mvs), [], cur.
      repeat split; try assumption. constructor.
Qed.

(** C2, as stated, fails: after frames 1 and 2 of the sample stream the
    buffer holds the non-empty frame 1 and the vector-less frame 2; the call
    for frame 3 prints two frames, the interpolated frame 2 and frame 3, and
    not frame 1. *)
Lemma two_frames_printed_when_interpolating :
  buffer_after (firstn 2 sample_stream) 32 32 = Some [sample_prev; sample_gap] /\
  Empty sample_prev = false /\
  output_vectors_std [sample_prev; sample_gap] 3 3 "P" [mkMV 0 0 0 0] 32 32 =
    Some ([sample_cur], [InterpolateFlow sample_gap sample_prev sample_cur; sample_cur]) /\
  length [InterpolateFlow sample_gap sample_prev sample_cur; sample_cur] = 2%nat /\
  FrameIndex (InterpolateFlow sample_gap sample_prev sample_cur) = 2 /\
  FrameIndex sample_cur = 3.
Proof. repeat split. Qed.

(** C2, amended: when a frame [cur] with vectors arrives while the buffer
    holds exactly two entries of which the first is non-empty, the call
    prints exactly two frames, in order: the second buffered entry with its
    dx and dy replaced by the interpolated values, then [cur] itself.  The
    first buffered entry is not printed by this call, and the buffer is left
    holding [cur] alone.  The call is defined for every stream of at least
    16x16 pixels. *)
Theorem interpolating_call (front back : FrameInfo) (frameIndex pts : Z) (pictType : ascii)
    (motionVectors : list AVMotionVector) (frameWidth frameHeight : Z) :
  motionVectors <> [] -> Empty front = false ->
  (16 <= frameWidth -> 16 <= frameHeight ->
   exists cur, aggregate frameIndex pts pictType motionVectors frameWidth frameHeight = Some cur) /\
  forall cur,
    aggregate frameIndex pts pictType motionVectors frameWidth frameHeight = Some cur ->
    Empty cur = false /\
    output_vectors_std [front; back] frameIndex pts pictType motionVectors frameWidth frameHeight
      = Some ([cur], [InterpolateFlow back front cur; cur]).
Proof.
  intros Hne Hfront. split; [apply aggregate_total|].
  intros cur Hcur. split.
  - apply aggregate_header in Hcur. destruct Hcur as (_&_&_&_&->).
    destruct motionVectors; [congruence|reflexivity].
  - destruct (output_vectors_std_vectors [front; back] _ _ _ _ _ _ cur Hne Hcur) as (b & -> & ->).
    rewrite Hfront. reflexivity.
Qed.

Lemma interpolating_call_witness :
  [mkMV 0 0 0 0] <> [] /\ Empty sample_prev = false /\ 16 <= 32 /\
  aggregate 3 3 "P" [mkMV 0 0 0 0] 32 32 = Some sample_cur /\
  output_vectors_std [sample_prev; sample_gap] 3 3 "P" [mkMV 0 0 0 0] 32 32
    = Some ([sample_cur], [InterpolateFlow sample_gap sample_prev sample_cur; sample_cur]).
Proof.
  assert (Hw : 16 <= 32) by lia.
  assert (Hne : [mkMV 0 0 0 0] <> []) by discriminate.
  assert (He : Empty sample_prev = false) by reflexivity.
  assert (Ha : aggregate 3 3 "P" [mkMV 0 0 0 0] 32 32 = Some sample_cur) by reflexivity.
  split; [exact Hne|]. split; [exact He|]. split; [exact Hw|]. split; [exact Ha|].
  exact (proj2 (proj2 (interpolating_call sample_prev sample_gap 3 3 "P" [mkMV 0 0 0 0] 32 32
                         Hne He) sample_cur Ha)).
Defined.

(** ** Size of the buffer *)

(** C3, as stated, fails: after three frames without vectors the buffer
    holds three entries. *)
Lemma three_gaps_are_buffered :
  Forall no_vectors sample_gaps /\
  option_map (@length FrameInfo) (buffer_after sample_gaps 32 32) = Some 3%nat.
Proof.
  split; [|reflexivity]. repeat constructor.
Qed.

(** C3, amended: between two calls of [output_vectors_std] while the stream
    is read, that is before the first frame and after each frame has been
    processed, the buffer holds exactly the frame built for the most recent
    frame with vectors followed by one empty, all-zero frame for each
    vector-less frame received after it, in the order received, or one such
    empty frame for each frame received if no frame with vectors has arrived
    yet.  So it holds one entry right after a frame with vectors and one
    more for each consecutive empty frame that follows; nothing bounds it by
    2.  The closing call at the end of the stream adds one further entry,
    the frame numbered -1 it builds from the variables of the last frame:
    behind the buffered entries when these carry no vector, alone when they
    do.  The processing is defined for every stream of at least 16x16
    pixels. *)
Theorem buffer_contents (frames : list decoded) (pts0 : Z) (pictType0 : ascii)
    (frameWidth frameHeight : Z) :
  (16 <= frameWidth -> 16 <= frameHeight ->
   exists buf, buffer_after frames frameWidth frameHeight = Some buf) /\
  forall buf,
    buffer_after frames frameWidth frameHeight = Some buf ->
    ((Forall no_vectors frames /\
      buf = blank_frames frames 1 (make_Shape frameWidth frameHeight) /\
      length buf = length frames) \/
     (exists before pts pictType mvs run cur,
         frames = before ++ (pts, pictType, mvs) :: run /\ mvs <> [] /\
         Forall no_vectors run /\
         aggregate (1 + Z.of_nat (length before)) pts pictType mvs frameWidth frameHeight
           = Some cur /\
         buf = cur :: blank_frames run (1 + Z.of_nat (length before) + 1)
                                   (make_Shape frameWidth frameHeight) /\
         length buf = S (length run))) /\
    forall pts pictType motionVectors closed now,
      last frames (pts0, pictType0, []) = (pts, pictType, motionVectors) ->
      flush_call frames pts0 pictType0 buf frameWidth frameHeight = Some (closed, now) ->
      (motionVectors = [] ->
       closed = buf ++ [new_FrameInfo (-1) pts pictType (make_Shape frameWidth frameHeight)]) /\
      (motionVectors <> [] ->
       exists extra,
         aggregate (-1) pts pictType motionVectors frameWidth frameHeight = Some extra /\
         closed = [extra]).
Proof.
  unfold buffer_after. split.
  - intros Hw Hh.
    destruct (main_loop_std_total frameWidth frameHeight frames Hw Hh 1 [] []) as (buf & o & ->).
    exists buf. reflexivity.
  - intros buf E.
    destruct (main_loop_std frames 1 [] [] frameWidth frameHeight) as [[buf' o]|] eqn:E0;
      [|discriminate].
    cbn in E. injection E as ->. split.
    + destruct (buffer_shape _ _ _ _ _ _ _ _ E0)
        as [[Hall ->] | (before & pts & pt & mvs & run & cur & -> & Hne & Hrun & Hcur & ->)].
      * left. split; [exact Hall|]. cbn [app]. split; [reflexivity|].
        apply blank_frames_length.
      * right. exists before, pts, pt, mvs, run, cur.
        split; [reflexivity|]. split; [exact Hne|]. split; [exact Hrun|].
        split; [exact Hcur|]. split; [reflexivity|].
        cbn [length]. rewrite blank_frames_length. reflexivity.
    + intros pts pictType motionVectors closed now Hlast Hflush.
      unfold flush_call in Hflush. rewrite Hlast in Hflush. split.
      * intros ->. rewrite output_vectors_std_no_vectors in Hflush.
        injection Hflush as <- _. reflexivity.
      * intros Hne.
        destruct (aggregate (-1) pts pictType motionVectors frameWidth frameHeight)
          as [extra|] eqn:Hextra.
        2:{ unfold output_vectors_std in Hflush. rewrite Hextra in Hflush. discriminate. }
        destruct (output_vectors_std_vectors buf _ _ _ _ _ _ extra Hne Hextra) as (b & Eb & _).
        rewrite Eb in Hflush. injection Hflush as <- _.
        exists extra. split; reflexivity.
Qed.

Lemma buffer_contents_witness :
  16 <= 32 /\
  exists buf,
    buffer_after sample_gaps 32 32 = Some buf /\
    buf = blank_frames sample_gaps 1 (make_Shape 32 32) /\
    length buf = 3%nat /\
    exists closed now,
      flush_call sample_gaps 0 "?" buf 32 32 = Some (closed, now) /\
      closed = buf ++ [new_FrameInfo (-1) 3 "P" (make_Shape 32 32)] /\
      length closed = 4%nat.
Proof.
  assert (Hw : 16 <= 32) by lia.
  split; [exact Hw|].
  destruct (buffer_contents sample_gaps 0 "?" 32 32) as [Htotal Hbuf].
  destruct (Htotal Hw Hw) as [buf E].
  exists buf. split; [exact E|].
  destruct (Hbuf buf E) as [Hshape Hclose].
  assert (Hb : buf = blank_frames sample_gaps 1 (make_Shape 32 32)).
  { destruct Hshape as [(_ & Hb & _) | (before & pts & pt & mvs & run & cur & Hf & Hne & _)].
    - exact Hb.
    - exfalso. apply Hne.
      assert (Hin : In (pts, pt, mvs) sample_gaps)
        by (rewrite Hf; apply in_or_app; right; left; reflexivity).
      cbn in Hin.
      repeat (destruct Hin as [Hin|Hin]; [injection Hin as _ _ <-; reflexivity|]).
      destruct Hin. }
  split; [exact Hb|]. split; [rewrite Hb; reflexivity|].
  assert (Hf : flush_call sample_gaps 0 "?" buf 32 32 =
               Some (buf ++ [new_FrameInfo (-1) 3 "P" (make_Shape 32 32)], buf))
    by (rewrite Hb; reflexivity).
  exists (buf ++ [new_FrameInfo (-1) 3 "P" (make_Shape 32 32)]), buf.
  split; [exact Hf|].
  split; [exact (proj1 (Hclose 3 "P"%char [] _ _ eq_refl Hf) eq_refl)|].
  rewrite Hb. reflexivity.
Defined.

(** C10: whenever the buffer holds exactly two entries after any part of the
    stream has been processed, the second entry is the frame built for the
    last frame received, that frame carried no vector, and the entry is
    marked empty with dx and dy all zero; so the frame [InterpolateFlow]
    overwrites never holds vector data of its own. *)
Theorem second_buffered_is_blank (frames : list decoded) (frameWidth frameHeight : Z)
    (front back : FrameInfo) :
  buffer_after frames frameWidth frameHeight = Some [front; back] ->
  blank back /\
  exists before pts pictType,
    frames = before ++ [(pts, pictType, [])] /\
    back = new_FrameInfo (Z.of_nat (length frames)) pts pictType
                         (make_Shape frameWidth frameHeight).
Proof.
  unfold buffer_after. intros E.
  destruct (main_loop_std frames 1 [] [] frameWidth frameHeight) as [[buf o]|] eqn:E0;
    [|discriminate].
  cbn in E. injection E as ->.
  assert (H : exists before pts pictType,
             frames = before ++ [(pts, pictType, [])] /\
             back = new_FrameInfo (Z.of_nat (length frames)) pts pictType
                                  (make_Shape frameWidth frameHeight)).
  { destruct (buffer_shape _ _ _ _ _ _ _ _ E0)
      as [[Hall Hb] | (before & pts & pt & mvs & run & cur & -> & Hne & Hrun & _ & Hb)].
    - cbn [app] in Hb.
      destruct frames as [|[[p1 t1] m1] [|[[p2 t2] m2] [|d3 rest]]];
        cbn [blank_frames app] in Hb; try discriminate.
      + inversion Hall as [|? ? _ Hall']. inversion Hall' as [|? ? H2 _].
        unfold no_vectors, mvs_of in H2. cbn in H2. subst m2.
        injection Hb as _ ->. exists [(p1, t1, m1)], p2, t2. split; reflexivity.
      + destruct d3 as [[? ?] ?]. cbn [blank_frames] in Hb. discriminate.
    - remember (1 + Z.of_nat (length before) + 1) as k eqn:Hk.
      destruct run as [|[[p2 t2] m2] [|[[? ?] ?] rest]]; cbn [blank_frames] in Hb;
        try discriminate.
      inversion Hrun as [|? ? H2 _]. unfold no_vectors, mvs_of in H2. cbn in H2. subst m2.
      injection Hb as _ ->. exists (before ++ [(pts, pt, mvs)]), p2, t2.
      split; [rewrite <- app_assoc; reflexivity|].
      rewrite length_app. cbn [length].
      replace (Z.of_nat (length before + 2)) with k by lia. reflexivity. }
  split; [|exact H].
  destruct H as (before & pts & pt & _ & ->). apply new_FrameInfo_blank.
Qed.

Lemma second_buffered_is_blank_witness :
  buffer_after (firstn 2 sample_stream) 32 32 = Some [sample_prev; sample_gap] /\
  blank sample_gap.
Proof.
  assert (E : buffer_after (firstn 2 sample_stream) 32 32 = Some [sample_prev; sample_gap])
    by reflexivity.
  split; [exact E|].
  exact (proj1 (second_buffered_is_blank (firstn 2 sample_stream) 32 32 sample_prev sample_gap E)).
Defined.

(** ** End of stream *)

(** When the last frame read carried no vector (or no frame was read at
    all), the closing call prints the buffered frames, unchanged and in
    order, and nothing else. *)
Lemma flush_call_after_gap (before : list decoded) (pts : Z) (pictType : ascii)
    (pts0 : Z) (pictType0 : ascii) (prev : list FrameInfo) (frameWidth frameHeight : Z) :
  flush_call (before ++ [(pts, pictType, [])]) pts0 pictType0 prev frameWidth frameHeight =
  Some (prev ++ [new_FrameInfo (-1) pts pictType (make_Shape frameWidth frameHeight)], prev).
Proof.
  unfold flush_call. rewrite last_last. apply output_vectors_std_no_vectors.
Qed.

Lemma flush_call_no_frames (pts0 : Z) (pictType0 : ascii) (prev : list FrameInfo)
    (frameWidth frameHeight : Z) :
  flush_call [] pts0 pictType0 prev frameWidth frameHeight =
  Some (prev ++ [new_FrameInfo (-1) pts0 pictType0 (make_Shape frameWidth frameHeight)], prev).
Proof. reflexivity. Qed.

(** When the last frame read carried vectors, the closing call handles them
    as a frame of its own, numbered -1, and prints it. *)
Lemma flush_call_after_vectors (before : list decoded) (pts : Z) (pictType : ascii)
    (mvs : list AVMotionVector) (pts0 : Z) (pictType0 : ascii) (prev : list FrameInfo)
    (frameWidth frameHeight : Z) (extra : FrameInfo) :
  mvs <> [] ->
  aggregate (-1) pts pictType mvs frameWidth frameHeight = Some extra ->
  FrameIndex extra = -1 /\
  exists printed,
    flush_call (before ++ [(pts, pictType, mvs)]) pts0 pictType0 prev frameWidth frameHeight
      = Some ([extra], printed ++ [extra]).
Proof.
  intros Hne E. split; [apply aggregate_header in E; tauto|].
  unfold flush_call. rewrite last_last.
  destruct (output_vectors_std_vectors prev _ _ _ _ _ _ extra Hne E) as (b & -> & _).
  exists b. reflexivity.
Qed.

(** C6, the code at the failing input: for a stream of a single frame that
    carries a vector, the buffer holds that frame when the stream ends; the
    closing call receives the vectors of the last frame read once more, so
    it prints the buffered frame and then a further frame, numbered -1 and
    built from those vectors, which was never buffered. *)
Theorem flush_prints_unbuffered_frame :
  main_loop_std sample_single 1 [] [] 32 32 = Some ([sample_prev], [sample_prev]) /\
  flush_call sample_single 0 "?" [sample_prev] 32 32
    = Some ([sample_phantom], [sample_prev; sample_phantom]) /\
  FrameIndex sample_prev = 1 /\ FrameIndex sample_phantom = -1 /\
  main_std sample_single 0 "?" 32 32 = Some [sample_prev; sample_prev; sample_phantom].
Proof. repeat split. Qed.

(** ** Raw mode *)

Lemma skipn_nth {A : Type} (d : A) (l : list A) : forall k,
  (k < length l)%nat -> skipn k l = nth k l d :: skipn (S k) l.
Proof.
  induction l as [|x l IH]; intros k Hk; cbn [length] in Hk; [lia|].
  destruct k as [|k]; [reflexivity|].
  cbn [skipn nth]. rewrite (IH k) by lia. reflexivity.
Qed.

Lemma raw_loop (mvs : list AVMotionVector) (n : nat) : forall (k : nat) (out : list line),
  (k + n <= length mvs)%nat ->
  for_from n (Z.of_nat k)
    (fun i out =>
       let mv := nth (Z.to_nat i) mvs (mkMV 0 0 0 0) in
       let mvdx := src_x mv - dst_x mv in
       let mvdy := src_y mv - dst_y mv in
       out ++ [RawVector (src_x mv) (src_y mv) mvdx mvdy])
    out
  = out ++ map vector_line (firstn n (skipn k mvs)).
Proof.
  induction n as [|n IH]; intros k out Hk; cbn [for_from].
  - cbn. rewrite app_nil_r. reflexivity.
  - replace (Z.of_nat k + 1) with (Z.of_nat (S k)) by lia.
    rewrite IH by lia. rewrite Nat2Z.id.
    rewrite (skipn_nth (mkMV 0 0 0 0) mvs k) by lia.
    cbn [firstn map]. rewrite <- app_assoc. reflexivity.
Qed.

(** C9: in raw mode the call for a frame with N vectors prints one header
    line, carrying the timestamp, the frame index, the picture-type tag and
    N, followed by one line for each vector, in list order, carrying its
    source position and its displacement: N + 1 lines, and only the header
    when N = 0.  The output of the whole run is made of these blocks, one for
    each decoded frame, numbered from 1. *)
Theorem raw_lines (frameIndex pts : Z) (pictType : ascii) (motionVectors : list AVMotionVector) :
  output_vectors_raw frameIndex pts pictType motionVectors
    = RawHeader pts frameIndex pictType (Z.of_nat (length motionVectors))
        :: map vector_line motionVectors /\
  length (output_vectors_raw frameIndex pts pictType motionVectors)
    = S (length motionVectors) /\
  output_vectors_raw frameIndex pts pictType [] = [RawHeader pts frameIndex pictType 0] /\
  forall before after,
    main_raw (before ++ (pts, pictType, motionVectors) :: after)
      = main_raw before
        ++ (RawHeader pts (1 + Z.of_nat (length before)) pictType (Z.of_nat (length motionVectors))
              :: map vector_line motionVectors)
        ++ main_loop_raw after (1 + Z.of_nat (length before) + 1).
Proof.
  assert (E : forall idx, output_vectors_raw idx pts pictType motionVectors
            = RawHeader pts idx pictType (Z.of_nat (length motionVectors))
                :: map vector_line motionVectors).
  { intros idx. unfold output_vectors_raw, for_range. rewrite Nat2Z.id.
    rewrite (raw_loop motionVectors (length motionVectors) 0) by lia.
    cbn [skipn]. rewrite firstn_all. reflexivity. }
  split; [apply E|]. split; [rewrite E; cbn; rewrite length_map; reflexivity|].
  split; [reflexivity|].
  intros before after. unfold main_raw.
  assert (G : forall idx,
    main_loop_raw (before ++ (pts, pictType, motionVectors) :: after) idx
      = main_loop_raw before idx
        ++ (RawHeader pts (idx + Z.of_nat (length before)) pictType
                      (Z.of_nat (length motionVectors))
              :: map vector_line motionVectors)
        ++ main_loop_raw after (idx + Z.of_nat (length before) + 1)).
  { induction before as [|[[p t] m] rest IH]; intros idx.
    - cbn [app main_loop_raw length Z.of_nat]. rewrite Z.add_0_r, E. reflexivity.
    - cbn [app main_loop_raw length]. rewrite IH, <- app_assoc.
      replace (idx + 1 + Z.of_nat (length rest)) with (idx + Z.of_nat (S (length rest))) by lia.
      reflexivity. }
  apply G.
Qed.

(** ** Range of the cells

    The sums [InterpolateFlow] forms stay far inside [int]: every cell of a
    buffered frame is 0 or the difference of two [int16_t]. *)

Lemma assign_vectors_bound (mvs : list AVMotionVector) : forall cur cur',
  Forall mv_wf mvs -> assign_vectors mvs cur = Some cur' -> cell_bound cur -> cell_bound cur'.
Proof.
  induction mvs as [|mv rest IH]; intros cur cur' Hwf E Hb; cbn [assign_vectors] in E.
  - injection E as <-. exact Hb.
  - destruct (assign_vector mv cur) as [c1|] eqn:E1; [|discriminate].
    inversion Hwf as [|? ? Hmv Hrest]; subst.
    apply (IH c1 cur' Hrest E).
    apply assign_vector_inv in E1. destruct E1 as (Hx&Hy&_).
    destruct Hmv as (Hsx&Hsy&Hdx&Hdy). unfold int16 in *.
    intros r c. rewrite Hx, Hy. unfold matrix_set.
    destruct ((r =? cell_row mv (Shape cur)) && (c =? cell_col mv (Shape cur)));
      [lia|apply Hb].
Qed.

Lemma aggregate_bound (frameIndex pts : Z) (pictType : ascii) (mvs : list AVMotionVector)
    (frameWidth frameHeight : Z) (cur : FrameInfo) :
  Forall mv_wf mvs ->
  aggregate frameIndex pts pictType mvs frameWidth frameHeight = Some cur ->
  cell_bound cur.
Proof.
  intros Hwf E. apply (assign_vectors_bound mvs _ cur Hwf E).
  intros r c. cbn. lia.
Qed.

Lemma interpolation_sum_fits_int (prev cur : FrameInfo) (r c : Z) :
  cell_bound prev -> cell_bound cur ->
  - 2 ^ 31 <= dx prev r c + dx cur r c < 2 ^ 31 /\
  - 2 ^ 31 <= dy prev r c + dy cur r c < 2 ^ 31.
Proof.
  intros Hp Hc. destruct (Hp r c), (Hc r c).
  change (2 ^ 31) with 2147483648. lia.
Qed.

(** ** The text of a grid frame *)

Lemma for_from_collect {A : Type} (f : Z -> A) (n : nat) : forall (i0 : Z) (acc : list A),
  for_from n i0 (fun i acc => acc ++ [f i]) acc
  = acc ++ map (fun k => f (i0 + Z.of_nat k)) (seq 0 n).
Proof.
  induction n as [|n IH]; intros i0 acc; cbn [for_from seq map].
  - rewrite app_nil_r. reflexivity.
  - rewrite IH, <- app_assoc. cbn [app]. rewrite Z.add_0_r. f_equal. f_equal.
    rewrite <- seq_shift, map_map. apply map_ext. intros k. f_equal. lia.
Qed.

Lemma for_range_collect {A : Type} (f : Z -> A) (n : Z) (acc : list A) :
  for_range n (fun i acc => acc ++ [f i]) acc = acc ++ map f (indices n).
Proof.
  unfold for_range, indices. rewrite for_from_collect, map_map. reflexivity.
Qed.

(** [Print] writes the header, then one line for each row of dx, then one
    line for each row of dy, each row holding the cells of the columns of the
    shape. *)
Lemma Print_text (f : FrameInfo) :
  Print f =
  ArrangedHeader (Pts f) (FrameIndex f) (PictType f) (fst (Shape f)) (snd (Shape f))
    :: map (fun i => Row (map (dx f i) (indices (snd (Shape f))))) (indices (fst (Shape f)))
    ++ map (fun i => Row (map (dy f i) (indices (snd (Shape f))))) (indices (fst (Shape f))).
Proof.
  unfold Print, Print_rows.
  rewrite (for_range_collect
             (fun i => Row (for_range (snd (Shape f)) (fun j row => row ++ [dx f i j]) []))).
  rewrite (for_range_collect
             (fun i => Row (for_range (snd (Shape f)) (fun j row => row ++ [dy f i j]) []))).
  cbn [app]. f_equal. f_equal.
  - apply map_ext. intros i. rewrite (for_range_collect (dx f i)). reflexivity.
  - apply map_ext. intros i. rewrite (for_range_collect (dy f i)). reflexivity.
Qed.

(** ** The packet loop *)

Section FrameSourceFacts.
Variable decoder : Type.
Variable avcodec_decode_video2 : decoder -> AVPacket -> Z * Z * decoder.
Variable videoStreamIndex : Z.

Local Abbreviation attempt := (process_frame decoder avcodec_decode_video2).
Local Abbreviation pull := (read_packets_loop decoder avcodec_decode_video2 videoStreamIndex).
Local Abbreviation run := (pulls decoder avcodec_decode_video2 videoStreamIndex).
Local Abbreviation machine := (accepts videoStreamIndex).

Lemma process_frame_cases (p : AVPacket) (d : decoder) :
  exists ret got_frame d',
    avcodec_decode_video2 d p = (ret, got_frame, d') /\
    ((yields_frame ret got_frame /\
      attempt p d = (true, advance p (Z.min ret (size p)), d', Decode p ret got_frame)) \/
     (~ yields_frame ret got_frame /\
      exists p', attempt p d = (false, p', d', Decode p ret got_frame))).
Proof.
  unfold process_frame, yields_frame.
  destruct (avcodec_decode_video2 d p) as [[ret got_frame] d'].
  exists ret, got_frame, d'. split; [reflexivity|].
  destruct (Z.ltb_spec ret 0).
  - right. split; [lia|]. eauto.
  - destruct (Z.ltb_spec 0 got_frame).
    + left. split; [lia|reflexivity].
    + right. split; [lia|]. eauto.
Qed.

(** One call of [read_packets], followed by whatever the machine accepts
    from the statics it leaves, is accepted from the statics it found. *)
Lemma read_packets_loop_accepted (q : list AVPacket) : forall (s : statics) (d : decoder) (t : list call),
  (if returned _ (pull q s d)
   then machine (phase_of (after _ (pull q s d))) t
   else t = []) ->
  machine (phase_of s) (calls _ (pull q s d) ++ t).
Proof.
  induction q as [|p q IH]; intros s d t; unfold phase_of at 2;
    cbn [read_packets_loop].
  - destruct (initialized s) eqn:Ei.
    + destruct (process_frame_cases (pktCopy s) d) as (ret & gf & d' & _ & [[Hy ->] | [Hn [p' ->]]]).
      * cbn. intros H. apply frame; assumption.
      * destruct (process_frame_cases blank_packet d') as (r2 & g2 & d2 & _ & [[Hy2 ->] | [Hn2 [p2 ->]]]);
          cbn; intros H; try unfold phase_of in H; cbn [initialized] in H; rewrite ?Ei in H.
        -- apply given_up; [assumption|]. apply end_frame; assumption.
        -- subst t. apply given_up; [assumption|]. apply end_done; assumption.
    + destruct (process_frame_cases blank_packet d) as (r2 & g2 & d2 & _ & [[Hy2 ->] | [Hn2 [p2 ->]]]);
        cbn; intros H; try unfold phase_of in H; cbn [initialized] in H; rewrite ?Ei in H.
      * apply end_frame; assumption.
      * subst t. apply end_done; assumption.
  - destruct (initialized s) eqn:Ei.
    + destruct (process_frame_cases (pktCopy s) d) as (ret & gf & d' & _ & [[Hy ->] | [Hn [p' ->]]]).
      * cbn. intros H. apply frame; assumption.
      * destruct (Z.eqb_spec (stream_index p) videoStreamIndex) as [Es|Es]; cbn [negb];
          cbn [earlier returned after calls app]; intros H.
        -- apply given_up; [assumption|]. apply target_stream; [assumption|].
           apply (IH (mkStatics true p p) d' t H).
        -- apply given_up; [assumption|]. apply other_stream; [assumption|].
           apply (IH (mkStatics false (av_free_packet p) p) d' t H).
    + destruct (Z.eqb_spec (stream_index p) videoStreamIndex) as [Es|Es]; cbn [negb];
        cbn [earlier returned after calls app]; intros H.
      * apply target_stream; [assumption|]. apply (IH (mkStatics true p p) d t H).
      * apply other_stream; [assumption|].
        apply (IH (mkStatics false (av_free_packet p) p) d t H).
Qed.

Lemma pulls_accepted (n : nat) : forall (s : statics) (q : list AVPacket) (d : decoder),
  machine (phase_of s) (run n s q d).
Proof.
  induction n as [|n IH]; intros s q d; cbn [pulls].
  - apply stop.
  - unfold read_packets. apply read_packets_loop_accepted.
    destruct (returned _ (pull q s d)); [apply IH|reflexivity].
Qed.

(** In an accepted sequence an attempt without a frame is the last call
    or is followed by the release of the packet, and then by the request
    for the next one if the sequence goes on. *)
Lemma accepted_no_frame (ph : phase) (t : list call) :
  machine ph t ->
  forall before offered ret got_frame rest,
    t = before ++ Decode offered ret got_frame :: rest ->
    ~ yields_frame ret got_frame ->
    rest = [] \/
    exists original rest',
      rest = Free original :: rest' /\
      (rest' = [] \/ exists delivered rest'', rest' = Read delivered :: rest'').
Proof.
  assert (Hhead : forall t', machine Awaiting t' ->
            t' = [] \/ exists delivered rest'', t' = Read delivered :: rest'').
  { intros t' H. inversion H; subst; eauto. }
  induction 1 as [ph | p t Hs Ht IH | p t Hs Ht IH | r g t Hy Ht IH | r g Hn
                  | p r g t Hy Ht IH | p orig r g t Hn Ht IH];
    intros before offered ret got_frame rest E Hno.
  - destruct before; discriminate.
  - destruct before as [|c1 [|c2 before]]; cbn [app] in E; try discriminate.
    injection E as _ _ E. eapply IH; eassumption.
  - destruct before as [|c1 before]; cbn [app] in E; try discriminate.
    injection E as _ E. eapply IH; eassumption.
  - destruct before as [|c1 [|c2 before]]; cbn [app] in E; try discriminate.
    + injection E as _ _ <- <- _. contradiction.
    + injection E as _ _ E. eapply IH; eassumption.
  - destruct before as [|c1 [|c2 [|c3 before]]]; cbn [app] in E; try discriminate.
    injection E as _ _ _ _ <-. left. reflexivity.
  - destruct before as [|c1 before]; cbn [app] in E.
    + injection E as _ <- <- _. contradiction.
    + injection E as _ E. eapply IH; eassumption.
  - destruct before as [|c1 [|c2 before]]; cbn [app] in E; try discriminate.
    + injection E as _ _ _ <-. right. exists orig, t. split; [reflexivity|]. apply Hhead, Ht.
    + injection E as _ _ E. eapply IH; eassumption.
Qed.
End FrameSourceFacts.




(** * Further properties *)

(** ** Shape of the grid *)

(** X1: for a stream of non-negative width and height the shape is
    (min(floor(height/16), 512), min(floor(width/16), 512)): rows come from
    the height, columns from the width, both lie in 0..512, and nothing else
    of the frame enters. *)
Theorem shape_of_dimensions (frameWidth frameHeight : Z) :
  0 <= frameWidth -> 0 <= frameHeight ->
  make_Shape frameWidth frameHeight
    = (Z.min (frameHeight / 16) 512, Z.min (frameWidth / 16) 512) /\
  0 <= fst (make_Shape frameWidth frameHeight) <= MAX_GRID_SIZE /\
  0 <= snd (make_Shape frameWidth frameHeight) <= MAX_GRID_SIZE /\
  forall frameIndex pts pictType motionVectors cur,
    aggregate frameIndex pts pictType motionVectors frameWidth frameHeight = Some cur ->
    Shape cur = (Z.min (frameHeight / 16) 512, Z.min (frameWidth / 16) 512).
Proof.
  intros Hw Hh.
  assert (E : forall pixels, 0 <= pixels ->
            to_size_t (Z.min (Z.quot pixels GRID_STEP) MAX_GRID_SIZE) = Z.min (pixels / 16) 512
            /\ 0 <= Z.min (pixels / 16) 512 <= 512).
  { intros pixels H. unfold GRID_STEP, MAX_GRID_SIZE.
    rewrite Z.quot_div_nonneg by lia.
    assert (0 <= pixels / 16) by (apply Z.div_pos; lia).
    split; [|lia]. apply to_size_t_small. unfold SIZE_T_MODULUS. lia. }
  destruct (E frameWidth Hw) as [Ew Bw]. destruct (E frameHeight Hh) as [Eh Bh].
  assert (Es : make_Shape frameWidth frameHeight
               = (Z.min (frameHeight / 16) 512, Z.min (frameWidth / 16) 512)).
  { unfold make_Shape. rewrite Ew, Eh. reflexivity. }
  rewrite Es. cbn [fst snd]. unfold MAX_GRID_SIZE.
  repeat split; try lia.
  intros frameIndex pts pictType mvs cur Hcur.
  apply aggregate_header in Hcur. destruct Hcur as (_&_&_&Hs&_). rewrite Hs. exact Es.
Qed.

Lemma shape_of_dimensions_witness :
  0 <= fst sample_dims /\ 0 <= snd sample_dims /\
  make_Shape (fst sample_dims) (snd sample_dims) = (3, 2).
Proof.
  assert (Hw : 0 <= fst sample_dims) by (cbn; lia).
  assert (Hh : 0 <= snd sample_dims) by (cbn; lia).
  split; [exact Hw|]. split; [exact Hh|].
  exact (proj1 (shape_of_dimensions (fst sample_dims) (snd sample_dims) Hw Hh)).
Defined.

(** ** Where a vector is stored *)

(** X2: in a stream of at least 16x16 pixels every vector is stored inside
    the shape, whatever its source position; and for a source coordinate
    above -16 the row and the column are
    clip(floor(coordinate / 16), 0, extent - 1). *)
Theorem vector_cell (mv : AVMotionVector) (frameWidth frameHeight : Z) :
  16 <= frameWidth -> 16 <= frameHeight -> mv_wf mv ->
  in_shape (make_Shape frameWidth frameHeight)
           (cell_row mv (make_Shape frameWidth frameHeight))
           (cell_col mv (make_Shape frameWidth frameHeight)) /\
  (-16 < src_y mv ->
   cell_row mv (make_Shape frameWidth frameHeight)
     = spec_clip (src_y mv) (fst (make_Shape frameWidth frameHeight))) /\
  (-16 < src_x mv ->
   cell_col mv (make_Shape frameWidth frameHeight)
     = spec_clip (src_x mv) (snd (make_Shape frameWidth frameHeight))).
Proof.
  intros Hw Hh (Hsx & Hsy & _ & _).
  destruct (make_Shape_range frameWidth frameHeight Hw Hh) as [Hr Hc].
  split; [apply cell_inside_grid; assumption|].
  assert (G : forall src extent, 1 <= extent <= MAX_GRID_SIZE -> int16 src -> -16 < src ->
              clip_index (to_size_t (Z.quot src GRID_STEP)) extent = spec_clip src extent).
  { intros src extent He Hi Hs. destruct (Z_lt_le_dec src 0).
    - destruct (clip_just_below_zero src extent He) as [-> ->]; [lia|reflexivity].
    - apply clip_nonneg_source; assumption. }
  split; intros H; [unfold cell_row|unfold cell_col]; apply G; assumption.
Qed.

Lemma vector_cell_witness :
  16 <= 40 /\ 16 <= 50 /\ mv_wf (mkMV 100 (-5) 0 0) /\
  cell_row (mkMV 100 (-5) 0 0) (make_Shape 40 50) = spec_clip (-5) 3 /\
  cell_col (mkMV 100 (-5) 0 0) (make_Shape 40 50) = spec_clip 100 2.
Proof.
  assert (Hw : 16 <= 40) by lia. assert (Hh : 16 <= 50) by lia.
  assert (Hm : mv_wf (mkMV 100 (-5) 0 0)) by (unfold mv_wf, int16; cbn; lia).
  split; [exact Hw|]. split; [exact Hh|]. split; [exact Hm|].
  destruct (vector_cell (mkMV 100 (-5) 0 0) 40 50 Hw Hh Hm) as (_ & Hr & Hc).
  split; [apply Hr|apply Hc]; cbn; lia.
Defined.

(** X3: in a stream less than 16 pixels high the grid has no row, the upper
    bound [Shape.first - 1] of the clip wraps around, and the row of a vector
    is not clipped at all: a vector whose source row is 8192 or more is
    stored past the end of the 512x512 arrays.  The same holds for the
    columns of a stream less than 16 pixels wide. *)
Theorem tiny_frame_store_out_of_bounds (frameIndex pts : Z) (pictType : ascii)
    (earlier later : list AVMotionVector) (mv : AVMotionVector) (frameWidth frameHeight : Z) :
  mv_wf mv ->
  (0 <= frameHeight < 16 /\ 8192 <= src_y mv) \/ (0 <= frameWidth < 16 /\ 8192 <= src_x mv) ->
  aggregate frameIndex pts pictType (earlier ++ mv :: later) frameWidth frameHeight = None.
Proof.
  intros (Hsx & Hsy & _ & _) Hcase. unfold aggregate. rewrite assign_vectors_app.
  destruct (assign_vectors earlier _) as [mid|] eqn:E; [|reflexivity].
  apply assign_vectors_header in E. destruct E as (_&_&_&Hs&_). cbn [new_FrameInfo Shape] in Hs.
  cbn [assign_vectors].
  assert (G : forall src pixels, int16 src -> 0 <= pixels < 16 -> 8192 <= src ->
              (clip_index (to_size_t (Z.quot src GRID_STEP))
                          (to_size_t (Z.min (Z.quot pixels GRID_STEP) MAX_GRID_SIZE))
               <? MAX_GRID_SIZE) = false).
  { intros src pixels [_ Hi] Hp Hsrc. unfold clip_index, GRID_STEP, MAX_GRID_SIZE.
    rewrite (Z.quot_small pixels 16) by lia.
    rewrite !Z.quot_div_nonneg by lia.
    assert (512 <= src / 16) by (apply Z.div_le_lower_bound; lia).
    assert (src / 16 <= 32767) by (apply Z.div_le_upper_bound; lia).
    rewrite (to_size_t_small (src / 16)) by (unfold SIZE_T_MODULUS; lia).
    change (Z.min 0 512) with 0. change (to_size_t 0) with 0.
    change (to_size_t (0 - 1)) with (SIZE_T_MODULUS - 1).
    apply Z.ltb_ge. unfold SIZE_T_MODULUS. lia. }
  unfold assign_vector. rewrite Hs. unfold cell_row, cell_col, make_Shape. cbn [fst snd].
  destruct Hcase as [[Hh Hy] | [Hw Hx]].
  - rewrite (G (src_y mv) frameHeight Hsy Hh Hy). reflexivity.
  - rewrite (G (src_x mv) frameWidth Hsx Hw Hx). rewrite andb_false_r. reflexivity.
Qed.

Lemma tiny_frame_store_out_of_bounds_witness :
  mv_wf (mkMV 0 9000 0 0) /\
  ((0 <= snd sample_low < 16 /\ 8192 <= src_y (mkMV 0 9000 0 0)) \/
   (0 <= fst sample_low < 16 /\ 8192 <= src_x (mkMV 0 9000 0 0))) /\
  aggregate 1 0 "P" ([] ++ mkMV 0 9000 0 0 :: []) (fst sample_low) (snd sample_low) = None.
Proof.
  assert (Hm : mv_wf (mkMV 0 9000 0 0)) by (unfold mv_wf, int16; cbn; lia).
  assert (Hc : (0 <= snd sample_low < 16 /\ 8192 <= src_y (mkMV 0 9000 0 0)) \/
               (0 <= fst sample_low < 16 /\ 8192 <= src_x (mkMV 0 9000 0 0)))
    by (left; cbn; lia).
  split; [exact Hm|]. split; [exact Hc|].
  exact (tiny_frame_store_out_of_bounds 1 0 "P" [] [] (mkMV 0 9000 0 0)
           (fst sample_low) (snd sample_low) Hm Hc).
Defined.

(** ** Range and position of the interpolated values *)

Lemma quot2_between (p n : Z) : Z.min p n <= Z.quot (p + n) 2 <= Z.max p n.
Proof.
  pose proof (Z.quot_rem' (p + n) 2) as Hq.
  destruct (Z_lt_le_dec (p + n) 0) as [Hs|Hs].
  - pose proof (Z.rem_bound_pos_neg (p + n) 2 ltac:(lia) ltac:(lia)). lia.
  - pose proof (Z.rem_bound_pos (p + n) 2 Hs ltac:(lia)). lia.
Qed.

(** X4: the cells of a frame aggregated from [int16_t] vectors lie in
    -65535..65535; so for two such frames the sums [InterpolateFlow] forms
    stay inside [int], and the interpolated cells lie in -65535..65535
    again. *)
Theorem interpolation_stays_in_int (gap prev cur : FrameInfo)
    (i1 p1 : Z) (t1 : ascii) (mvs1 : list AVMotionVector)
    (i2 p2 : Z) (t2 : ascii) (mvs2 : list AVMotionVector) (frameWidth frameHeight : Z) :
  Forall mv_wf mvs1 -> Forall mv_wf mvs2 ->
  aggregate i1 p1 t1 mvs1 frameWidth frameHeight = Some prev ->
  aggregate i2 p2 t2 mvs2 frameWidth frameHeight = Some cur ->
  cell_bound prev /\ cell_bound cur /\
  forall r c,
    INT_MIN <= dx prev r c + dx cur r c <= INT_MAX /\
    INT_MIN <= dy prev r c + dy cur r c <= INT_MAX /\
    (in_shape (Shape gap) r c ->
     -65535 <= dx (InterpolateFlow gap prev cur) r c <= 65535 /\
     -65535 <= dy (InterpolateFlow gap prev cur) r c <= 65535).
Proof.
  intros W1 W2 E1 E2.
  pose proof (aggregate_bound _ _ _ _ _ _ _ W1 E1) as B1.
  pose proof (aggregate_bound _ _ _ _ _ _ _ W2 E2) as B2.
  split; [exact B1|]. split; [exact B2|].
  intros r c. destruct (B1 r c) as [X1 Y1]. destruct (B2 r c) as [X2 Y2].
  unfold INT_MIN, INT_MAX. change (2 ^ 31) with 2147483648.
  split; [lia|]. split; [lia|].
  intros [Hr Hc].
  destruct (InterpolateFlow_cells prev cur gap) as (Hx & Hy & _).
  rewrite Hx, Hy. unfold avg_dx, avg_dy.
  pose proof (quot2_between (dx prev r c) (dx cur r c)).
  pose proof (quot2_between (dy prev r c) (dy cur r c)).
  bool_cases.
Qed.

Lemma interpolation_stays_in_int_witness :
  Forall mv_wf [mkMV 0 0 1 3] /\ Forall mv_wf [mkMV 0 0 0 0] /\
  aggregate 1 1 "P" [mkMV 0 0 1 3] 32 32 = Some sample_prev /\
  aggregate 3 3 "P" [mkMV 0 0 0 0] 32 32 = Some sample_cur /\
  in_shape (Shape sample_gap) 0 0 /\
  -65535 <= dx (InterpolateFlow sample_gap sample_prev sample_cur) 0 0 <= 65535.
Proof.
  assert (W1 : Forall mv_wf [mkMV 0 0 1 3])
    by (repeat constructor; unfold int16; cbn; lia).
  assert (W2 : Forall mv_wf [mkMV 0 0 0 0])
    by (repeat constructor; unfold int16; cbn; lia).
  assert (E1 : aggregate 1 1 "P" [mkMV 0 0 1 3] 32 32 = Some sample_prev) by reflexivity.
  assert (E2 : aggregate 3 3 "P" [mkMV 0 0 0 0] 32 32 = Some sample_cur) by reflexivity.
  assert (H : in_shape (Shape sample_gap) 0 0) by (vm_compute; repeat split; discriminate).
  split; [exact W1|]. split; [exact W2|]. split; [exact E1|]. split; [exact E2|].
  split; [exact H|].
  destruct (interpolation_stays_in_int sample_gap sample_prev sample_cur
              1 1 "P" [mkMV 0 0 1 3] 3 3 "P" [mkMV 0 0 0 0] 32 32 W1 W2 E1 E2)
    as (_ & _ & Hcells).
  destruct (Hcells 0 0) as (_ & _ & Hin).
  exact (proj1 (Hin H)).
Defined.

(** X5: inside the shape an interpolated value lies between the values of
    the two neighbours (so it equals them where they agree); it is the same
    whichever of the two neighbours is passed first, and it does not depend
    on what the gap frame held before. *)
Theorem interpolated_between_neighbours (gap gap2 prev cur : FrameInfo) (r c : Z) :
  in_shape (Shape gap) r c -> Shape gap2 = Shape gap ->
  Z.min (dx prev r c) (dx cur r c) <= dx (InterpolateFlow gap prev cur) r c
    <= Z.max (dx prev r c) (dx cur r c) /\
  Z.min (dy prev r c) (dy cur r c) <= dy (InterpolateFlow gap prev cur) r c
    <= Z.max (dy prev r c) (dy cur r c) /\
  dx (InterpolateFlow gap cur prev) r c = dx (InterpolateFlow gap prev cur) r c /\
  dy (InterpolateFlow gap cur prev) r c = dy (InterpolateFlow gap prev cur) r c /\
  dx (InterpolateFlow gap2 prev cur) r c = dx (InterpolateFlow gap prev cur) r c /\
  dy (InterpolateFlow gap2 prev cur) r c = dy (InterpolateFlow gap prev cur) r c.
Proof.
  intros [Hr Hc] Hs.
  destruct (InterpolateFlow_cells prev cur gap) as (Hx & Hy & _).
  destruct (InterpolateFlow_cells cur prev gap) as (Hx' & Hy' & _).
  destruct (InterpolateFlow_cells prev cur gap2) as (Hx2 & Hy2 & _).
  rewrite Hx, Hy, Hx', Hy', Hx2, Hy2, Hs. unfold avg_dx, avg_dy.
  pose proof (quot2_between (dx prev r c) (dx cur r c)).
  pose proof (quot2_between (dy prev r c) (dy cur r c)).
  rewrite (Z.add_comm (dx cur r c)), (Z.add_comm (dy cur r c)).
  bool_cases; repeat split; lia.
Qed.

Lemma interpolated_between_neighbours_witness :
  in_shape (Shape sample_gap) 0 0 /\ Shape sample_gap = Shape sample_gap /\
  Z.min (dy sample_prev 0 0) (dy sample_cur 0 0)
    <= dy (InterpolateFlow sample_gap sample_prev sample_cur) 0 0
    <= Z.max (dy sample_prev 0 0) (dy sample_cur 0 0).
Proof.
  assert (H : in_shape (Shape sample_gap) 0 0) by (vm_compute; repeat split; discriminate).
  split; [exact H|]. split; [reflexivity|].
  exact (proj1 (proj2 (interpolated_between_neighbours sample_gap sample_gap sample_prev
                         sample_cur 0 0 H eq_refl))).
Defined.

(** ** The text of a grid frame *)

Lemma indices_length (n : Z) : length (indices n) = Z.to_nat n.
Proof. unfold indices. rewrite length_map, length_seq. reflexivity. Qed.

Lemma indices_nth (n : Z) (k : nat) :
  (k < Z.to_nat n)%nat -> nth_error (indices n) k = Some (Z.of_nat k).
Proof.
  intros H. unfold indices. rewrite nth_error_map.
  rewrite nth_error_nth' with (d := O) by (rewrite length_seq; exact H).
  rewrite seq_nth by exact H. reflexivity.
Qed.

(** X6: [Print] writes the header line with the timestamp, the frame index,
    the picture type and the shape, then one line for each row of dx, then
    one line for each row of dy: 1 + 2 * rows lines.  Line 1 + r holds the
    dx cells of row r and line 1 + rows + r the dy cells of row r, each with
    one value for every column of the shape, in column order. *)
Theorem Print_layout (f : FrameInfo) :
  let rows := Z.to_nat (fst (Shape f)) in
  let cols := Z.to_nat (snd (Shape f)) in
  length (Print f) = (1 + 2 * rows)%nat /\
  nth_error (Print f) 0
    = Some (ArrangedHeader (Pts f) (FrameIndex f) (PictType f)
                           (fst (Shape f)) (snd (Shape f))) /\
  forall r, (r < rows)%nat ->
    exists xs ys,
      nth_error (Print f) (1 + r) = Some (Row xs) /\
      nth_error (Print f) (1 + rows + r) = Some (Row ys) /\
      length xs = cols /\ length ys = cols /\
      forall c, (c < cols)%nat ->
        nth_error xs c = Some (dx f (Z.of_nat r) (Z.of_nat c)) /\
        nth_error ys c = Some (dy f (Z.of_nat r) (Z.of_nat c)).
Proof.
  intros rows cols. rewrite Print_text.
  set (rx := map (fun i => Row (map (dx f i) (indices (snd (Shape f))))) (indices (fst (Shape f)))).
  set (ry := map (fun i => Row (map (dy f i) (indices (snd (Shape f))))) (indices (fst (Shape f)))).
  assert (Lx : length rx = rows) by (unfold rx; rewrite length_map; apply indices_length).
  assert (Ly : length ry = rows) by (unfold ry; rewrite length_map; apply indices_length).
  split; [cbn [length]; rewrite length_app, Lx, Ly; lia|].
  split; [reflexivity|].
  intros r Hr.
  exists (map (dx f (Z.of_nat r)) (indices (snd (Shape f)))),
         (map (dy f (Z.of_nat r)) (indices (snd (Shape f)))).
  split; [|split; [|split; [|split]]].
  - cbn [Nat.add nth_error]. rewrite nth_error_app1 by lia.
    unfold rx. rewrite nth_error_map, (indices_nth _ r Hr). reflexivity.
  - cbn [Nat.add nth_error]. rewrite nth_error_app2 by lia.
    replace (rows + r - length rx)%nat with r by lia.
    unfold ry. rewrite nth_error_map, (indices_nth _ r Hr). reflexivity.
  - rewrite length_map. apply indices_length.
  - rewrite length_map. apply indices_length.
  - intros c Hc. rewrite !nth_error_map, (indices_nth _ c Hc). split; reflexivity.
Qed.

Lemma Print_layout_witness :
  (0 < Z.to_nat (fst (Shape sample_prev)))%nat /\
  (0 < Z.to_nat (snd (Shape sample_prev)))%nat /\
  length (Print sample_prev) = 5%nat /\
  exists xs ys,
    nth_error (Print sample_prev) 1 = Some (Row xs) /\
    nth_error (Print sample_prev) 3 = Some (Row ys) /\
    nth_error xs 0 = Some (-1) /\ nth_error ys 0 = Some (-3).
Proof.
  assert (Hr : (0 < Z.to_nat (fst (Shape sample_prev)))%nat) by (vm_compute; lia).
  assert (Hc : (0 < Z.to_nat (snd (Shape sample_prev)))%nat) by (vm_compute; lia).
  split; [exact Hr|]. split; [exact Hc|].
  destruct (Print_layout sample_prev) as (Hlen & _ & Hrows).
  split; [exact Hlen|].
  destruct (Hrows O Hr) as (xs & ys & E1 & E2 & _ & _ & Hcells).
  exists xs, ys. split; [exact E1|]. split; [exact E2|]. exact (Hcells O Hc).
Defined.

(** ** What the grid mode prints *)

(** One call: the frame built is printed or queued empty; a queued empty
    frame stays queued or is printed, as it is or interpolated. *)
Lemma output_vectors_std_covers (prev : list FrameInfo) (frameIndex pts : Z) (pictType : ascii)
    (mvs : list AVMotionVector) (frameWidth frameHeight : Z) (prev' now : list FrameInfo) :
  output_vectors_std prev frameIndex pts pictType mvs frameWidth frameHeight = Some (prev', now) ->
  exists cur,
    aggregate frameIndex pts pictType mvs frameWidth frameHeight = Some cur /\
    (In cur now \/ (In cur prev' /\ Empty cur = true)) /\
    (forall f, In f prev -> Empty f = true ->
       (In f prev' /\ frameIndex <> -1) \/ exists f', In f' now /\ same_tags f f').
Proof.
  unfold output_vectors_std.
  destruct (aggregate frameIndex pts pictType mvs frameWidth frameHeight) as [cur|] eqn:Hcur;
    [|discriminate].
  intros E. exists cur. split; [reflexivity|].
  pose proof (aggregate_header _ _ _ _ _ _ _ Hcur) as (_&_&_&_&He).
  unfold emit in E. destruct mvs as [|mv mvs]; cbn [is_empty negb] in E.
  - injection E as <- <-. split.
    + right. split; [apply in_or_app; right; left; reflexivity|exact He].
    + intros f Hf _. destruct (Z.eqb_spec frameIndex (-1)) as [Ei|Ei].
      * right. exists f. split; [exact Hf|repeat split].
      * left. split; [apply in_or_app; left; exact Hf|exact Ei].
  - assert (Hnow : exists before,
              now = before ++ [cur] /\
              before = match prev with
                       | [front; back] =>
                           if negb (Empty front) then [InterpolateFlow back front cur] else prev
                       | _ => prev
                       end).
    { eexists. split; [|reflexivity].
      destruct (frameIndex =? -1); injection E as _ <-; [rewrite app_nil_r|]; reflexivity. }
    destruct Hnow as (before & -> & Hb). clear E. split.
    + left. apply in_or_app. right. left. reflexivity.
    + intros f Hf Hef. right.
      assert (Hcase : In f before \/
                      exists front, prev = [front; f] /\ before = [InterpolateFlow f front cur]).
      { destruct prev as [|a [|b [|c rest]]]; try (left; rewrite Hb; exact Hf).
        destruct (Empty a) eqn:Ea; cbn [negb] in Hb; [left; rewrite Hb; exact Hf|].
        right. destruct Hf as [<- | [<- | []]]; [congruence|]. exists a. split; [reflexivity|exact Hb]. }
      destruct Hcase as [Hin | (front & _ & ->)].
      * exists f. split; [apply in_or_app; left; exact Hin|repeat split].
      * exists (InterpolateFlow f front cur). split; [left; reflexivity|].
        destruct (InterpolateFlow_cells front cur f) as (_&_&_&Hp&Hi&Ht&Hs&_).
        repeat split; assumption.
Qed.

Lemma main_loop_std_covers (frameWidth frameHeight : Z) (frames : list decoded) :
  forall frameIndex prev printed prev' printed',
    1 <= frameIndex ->
    main_loop_std frames frameIndex prev printed frameWidth frameHeight = Some (prev', printed') ->
    (forall f, In f printed -> In f printed') /\
    (forall f, In f prev -> Empty f = true ->
       In f prev' \/ exists f', In f' printed' /\ same_tags f f') /\
    (forall k pts pictType mvs,
       nth_error frames k = Some (pts, pictType, mvs) ->
       exists f,
         stands_for f (frameIndex + Z.of_nat k) pts pictType frameWidth frameHeight /\
         (In f printed' \/ (In f prev' /\ Empty f = true))).
Proof.
  induction frames as [|[[pts pictType] mvs] rest IH];
    intros frameIndex prev printed prev' printed' Hidx E; cbn [main_loop_std] in E.
  - injection E as <- <-. split; [auto|]. split; [auto|].
    intros k ? ? ? Hk. destruct k; discriminate.
  - destruct (output_vectors_std prev frameIndex pts pictType mvs frameWidth frameHeight)
      as [[p1 now]|] eqn:E1; [|discriminate].
    destruct (output_vectors_std_covers _ _ _ _ _ _ _ _ _ E1) as (cur & Hcur & Hc & Hq).
    destruct (IH (frameIndex + 1) p1 (printed ++ now) prev' printed' ltac:(lia) E)
      as (I1 & I2 & I3).
    split; [|split].
    + intros f Hf. apply I1, in_or_app. left. exact Hf.
    + intros f Hf He. destruct (Hq f Hf He) as [[Hin _] | (f' & Hin & Ht)].
      * apply I2; assumption.
      * right. exists f'. split; [apply I1, in_or_app; right; exact Hin|exact Ht].
    + intros k pts' pt' mvs' Hk. destruct k as [|k].
      * cbn in Hk. injection Hk as <- <- <-.
        pose proof (aggregate_header _ _ _ _ _ _ _ Hcur) as (Hp&Hi&Ht&Hs&_).
        rewrite Z.add_0_r.
        destruct Hc as [Hin | [Hin He]].
        -- exists cur. split; [repeat split; assumption|].
           left. apply I1, in_or_app. right. exact Hin.
        -- destruct (I2 cur Hin He) as [Hin' | (f' & Hin' & (T1&T2&T3&T4))].
           ++ exists cur. split; [repeat split; assumption|]. right. split; assumption.
           ++ exists f'. split; [repeat split; congruence|]. left. exact Hin'.
      * cbn [nth_error] in Hk. destruct (I3 k pts' pt' mvs' Hk) as (f & Hs & Hin).
        exists f. split; [|exact Hin].
        replace (frameIndex + Z.of_nat (S k)) with (frameIndex + 1 + Z.of_nat k) by lia.
        exact Hs.
Qed.

(** X7: no frame is lost.  For every stream of at least 16x16 pixels the
    run in grid mode ends, and for every decoded frame it prints at least one
    grid frame that carries the frame's index (its position, counted from
    1), timestamp, picture type and the shape of the stream. *)
Theorem every_frame_is_printed (frames : list decoded) (pts0 : Z) (pictType0 : ascii)
    (frameWidth frameHeight : Z) :
  16 <= frameWidth -> 16 <= frameHeight ->
  exists printed,
    main_std frames pts0 pictType0 frameWidth frameHeight = Some printed /\
    forall k pts pictType mvs,
      nth_error frames k = Some (pts, pictType, mvs) ->
      exists f,
        In f printed /\
        stands_for f (Z.of_nat k + 1) pts pictType frameWidth frameHeight.
Proof.
  intros Hw Hh. unfold main_std.
  destruct (main_loop_std_total frameWidth frameHeight frames Hw Hh 1 [] []) as (prev & out & E).
  rewrite E. unfold flush_call.
  destruct (last frames (pts0, pictType0, [])) as [[lp lt] lm].
  destruct (output_vectors_std_total prev (-1) lp lt lm frameWidth frameHeight Hw Hh)
    as (p2 & now & E2).
  rewrite E2. eexists. split; [reflexivity|].
  destruct (main_loop_std_covers frameWidth frameHeight frames 1 [] [] prev out ltac:(lia) E)
    as (_ & _ & I3).
  destruct (output_vectors_std_covers _ _ _ _ _ _ _ _ _ E2) as (_ & _ & _ & Hq).
  intros k pts pictType mvs Hk.
  destruct (I3 k pts pictType mvs Hk) as (f & Hs & [Hin | [Hin He]]).
  - exists f. split; [apply in_or_app; left; exact Hin|].
    replace (Z.of_nat k + 1) with (1 + Z.of_nat k) by lia. exact Hs.
  - destruct (Hq f Hin He) as [[_ Hne] | (f' & Hin' & (T1&T2&T3&T4))]; [congruence|].
    exists f'. split; [apply in_or_app; right; exact Hin'|].
    destruct Hs as (S1&S2&S3&S4).
    replace (Z.of_nat k + 1) with (1 + Z.of_nat k) by lia.
    repeat split; congruence.
Qed.

Lemma every_frame_is_printed_witness :
  16 <= 32 /\
  nth_error sample_stream 1 = Some (2, "P"%char, []) /\
  exists printed,
    main_std sample_stream 0 "?" 32 32 = Some printed /\
    exists f, In f printed /\ stands_for f 2 2 "P" 32 32.
Proof.
  assert (Hw : 16 <= 32) by lia.
  assert (Hk : nth_error sample_stream 1 = Some (2, "P"%char, [])) by reflexivity.
  split; [exact Hw|]. split; [exact Hk|].
  destruct (every_frame_is_printed sample_stream 0 "?" 32 32 Hw Hw) as (printed & E & Hall).
  exists printed. split; [exact E|]. exact (Hall 1%nat 2 "P"%char [] Hk).
Defined.

Lemma frame_at_app (frames more : list decoded) (k : nat) (w h : Z) (f : FrameInfo) :
  frame_at frames k w h f -> frame_at (frames ++ more) k w h f.
Proof.
  intros (pts & pt & mvs & Hk & Ha). exists pts, pt, mvs. split; [|exact Ha].
  rewrite nth_error_app1; [exact Hk|]. apply nth_error_Some. congruence.
Qed.

Lemma lone_gap_at_app (frames more : list decoded) (k : nat) (w h : Z) (f : FrameInfo) :
  lone_gap_at frames k w h f -> lone_gap_at (frames ++ more) k w h f.
Proof.
  intros (a & g & c & Ha & Ea & Hg & Eg & Hc & Ec & ->).
  exists a, g, c. repeat split; try assumption; apply frame_at_app; assumption.
Qed.

(** What has been printed and what is queued after any part of the stream:
    the queue holds the frames built for the last frames received, all but
    the first of them empty. *)
Lemma printed_and_queued (frameWidth frameHeight : Z) (frames : list decoded) :
  forall prev printed,
    main_loop_std frames 1 [] [] frameWidth frameHeight = Some (prev, printed) ->
    (forall f, In f printed ->
       (exists k, frame_at frames k frameWidth frameHeight f) \/
       (exists k, lone_gap_at frames k frameWidth frameHeight f)) /\
    (length prev <= length frames)%nat /\
    (forall j f, nth_error prev j = Some f ->
       frame_at frames (length frames - length prev + j) frameWidth frameHeight f /\
       ((1 <= j)%nat -> Empty f = true)).
Proof.
  induction frames as [|[[pts pictType] mvs] frames IH] using rev_ind; intros prev printed E.
  - cbn in E. injection E as <- <-. split; [intros f []|]. split; [reflexivity|].
    intros j f Hj. destruct j; discriminate.
  - rewrite main_loop_std_app in E.
    destruct (main_loop_std frames 1 [] [] frameWidth frameHeight) as [[p o]|] eqn:E0;
      [|discriminate].
    destruct (IH p o eq_refl) as (P & L & B). clear IH.
    cbn [main_loop_std] in E.
    destruct (output_vectors_std p (1 + Z.of_nat (length frames)) pts pictType mvs
                frameWidth frameHeight) as [[p1 now]|] eqn:E1; [|discriminate].
    injection E as <- <-.
    assert (Hold : forall f, In f o ->
              (exists k, frame_at (frames ++ [(pts, pictType, mvs)]) k frameWidth frameHeight f) \/
              (exists k, lone_gap_at (frames ++ [(pts, pictType, mvs)]) k frameWidth frameHeight f)).
    { intros f Hf. destruct (P f Hf) as [[k Hk] | [k Hk]].
      - left. exists k. apply frame_at_app. exact Hk.
      - right. exists k. apply lone_gap_at_app. exact Hk. }
    assert (Hnew : forall cur,
              aggregate (1 + Z.of_nat (length frames)) pts pictType mvs frameWidth frameHeight
                = Some cur ->
              frame_at (frames ++ [(pts, pictType, mvs)]) (length frames)
                       frameWidth frameHeight cur).
    { intros cur Hcur. exists pts, pictType, mvs. split.
      - rewrite nth_error_app2 by lia. rewrite Nat.sub_diag. reflexivity.
      - rewrite Z.add_comm. exact Hcur. }
    rewrite length_app. cbn [length].
    destruct mvs as [|mv mvs].
    + rewrite output_vectors_std_no_vectors in E1.
      destruct (Z.eqb_spec (1 + Z.of_nat (length frames)) (-1)) as [Hbad|_]; [lia|].
      injection E1 as <- <-. rewrite app_nil_r.
      split; [exact Hold|]. rewrite length_app. cbn [length]. split; [lia|].
      intros j f Hj.
      destruct (Nat.lt_ge_cases j (length p)) as [Hlt|Hge].
      * rewrite nth_error_app1 in Hj by exact Hlt.
        destruct (B j f Hj) as [Hat He]. split; [|exact He].
        replace (length frames + 1 - (length p + 1) + j)%nat
          with (length frames - length p + j)%nat by lia.
        apply frame_at_app. exact Hat.
      * rewrite nth_error_app2 in Hj by exact Hge.
        destruct (j - length p)%nat as [|m] eqn:Em; [|destruct m; discriminate].
        cbn in Hj. injection Hj as <-.
        split; [|reflexivity].
        replace (length frames + 1 - (length p + 1) + j)%nat with (length frames) by lia.
        apply Hnew. reflexivity.
    + assert (Hne : mv :: mvs <> []) by discriminate.
      destruct (aggregate (1 + Z.of_nat (length frames)) pts pictType (mv :: mvs)
                  frameWidth frameHeight) as [cur|] eqn:Hcur.
      2:{ unfold output_vectors_std in E1. rewrite Hcur in E1. discriminate. }
      destruct (output_vectors_std_vectors p _ _ _ _ _ _ cur Hne Hcur) as (b & Eb & Hb).
      rewrite Eb in E1. injection E1 as <- <-.
      pose proof (Hnew cur eq_refl) as Hat_cur.
      assert (Hecur : Empty cur = false).
      { apply aggregate_header in Hcur. destruct Hcur as (_&_&_&_&->). reflexivity. }
      split; [|split].
      * intros f Hf. apply in_app_or in Hf. destruct Hf as [Hf|Hf]; [apply Hold; exact Hf|].
        apply in_app_or in Hf. destruct Hf as [Hf|[<-|[]]].
        2:{ left. exists (length frames). exact Hat_cur. }
        assert (Hcase : In f p \/
                  exists front back, p = [front; back] /\ Empty front = false /\
                                     f = InterpolateFlow back front cur).
        { destruct p as [|a [|b' [|c rest]]]; try (left; rewrite Hb in Hf; exact Hf).
          destruct (Empty a) eqn:Ea; cbn [negb] in Hb; [left; rewrite Hb in Hf; exact Hf|].
          right. exists a, b'. rewrite Hb in Hf. destruct Hf as [<-|[]].
          split; [reflexivity|]. split; [exact Ea|reflexivity]. }
        destruct Hcase as [Hin | (front & back & -> & Ef & ->)].
        -- apply In_nth_error in Hin. destruct Hin as [j Hj].
           destruct (B j f Hj) as [Hat _]. left. eexists. apply frame_at_app. exact Hat.
        -- cbn [length] in L, B.
           destruct (B 0%nat front eq_refl) as [Hfront _].
           destruct (B 1%nat back eq_refl) as [Hback Eback].
           right. exists (length frames - 2)%nat, front, back, cur.
           split; [apply frame_at_app; rewrite Nat.add_0_r in Hfront; exact Hfront|].
           split; [exact Ef|].
           split; [apply frame_at_app; exact Hback|].
           split; [apply Eback; lia|].
           split; [replace (length frames - 2 + 2)%nat with (length frames) by lia;
                   exact Hat_cur|].
           split; [exact Hecur|reflexivity].
      * cbn [length]. lia.
      * intros j f Hj. destruct j as [|[|j]]; try discriminate.
        cbn in Hj. injection Hj as <-. split; [|lia].
        cbn [length].
        replace (length frames + 1 - 1 + 0)%nat with (length frames) by lia. exact Hat_cur.
Qed.

(** X8: every grid frame printed while the stream is read is either the
    frame as the aggregation built it for one of the decoded frames, or the
    interpolation of a frame without vectors whose two neighbours in the
    stream both have vectors, between the frames built for those two
    neighbours.  Nothing else is ever synthesised: a frame with vectors, and
    a frame in a run of two or more frames without vectors, is only printed
    as built. *)
Theorem printed_frames_are_built_or_lone_gaps (frames : list decoded)
    (frameWidth frameHeight : Z) (prev printed : list FrameInfo) (f : FrameInfo) :
  main_loop_std frames 1 [] [] frameWidth frameHeight = Some (prev, printed) ->
  In f printed ->
  (exists k, frame_at frames k frameWidth frameHeight f) \/
  (exists k, lone_gap_at frames k frameWidth frameHeight f).
Proof.
  intros E Hf. exact (proj1 (printed_and_queued frameWidth frameHeight frames prev printed E) f Hf).
Qed.

Lemma printed_frames_are_built_or_lone_gaps_witness :
  main_loop_std sample_stream 1 [] [] 32 32
    = Some ([sample_cur],
            [sample_prev; InterpolateFlow sample_gap sample_prev sample_cur; sample_cur]) /\
  In (InterpolateFlow sample_gap sample_prev sample_cur)
     [sample_prev; InterpolateFlow sample_gap sample_prev sample_cur; sample_cur] /\
  ((exists k, frame_at sample_stream k 32 32
                (InterpolateFlow sample_gap sample_prev sample_cur)) \/
   (exists k, lone_gap_at sample_stream k 32 32
                (InterpolateFlow sample_gap sample_prev sample_cur))).
Proof.
  assert (E : main_loop_std sample_stream 1 [] [] 32 32
              = Some ([sample_cur],
                      [sample_prev; InterpolateFlow sample_gap sample_prev sample_cur;
                       sample_cur])) by reflexivity.
  assert (Hin : In (InterpolateFlow sample_gap sample_prev sample_cur)
                   [sample_prev; InterpolateFlow sample_gap sample_prev sample_cur; sample_cur])
    by (right; left; reflexivity).
  split; [exact E|]. split; [exact Hin|].
  exact (printed_frames_are_built_or_lone_gaps sample_stream 32 32 _ _ _ E Hin).
Defined.

(** X9: when the last decoded frame has no vectors, the closing call prints
    exactly the frames left in the buffer, as they are and in buffer order,
    and nothing else; every buffered frame after the first is empty with dx
    and dy all zero, so a trailing gap is printed without interpolation.
    With no decoded frame at all nothing is printed. *)
Theorem flush_after_frame_without_vectors (before : list decoded) (pts : Z) (pictType : ascii)
    (pts0 : Z) (pictType0 : ascii) (frameWidth frameHeight : Z) :
  16 <= frameWidth -> 16 <= frameHeight ->
  main_std [] pts0 pictType0 frameWidth frameHeight = Some [] /\
  exists prev printed,
    main_loop_std (before ++ [(pts, pictType, [])]) 1 [] [] frameWidth frameHeight
      = Some (prev, printed) /\
    flush_call (before ++ [(pts, pictType, [])]) pts0 pictType0 prev frameWidth frameHeight
      = Some (prev ++ [new_FrameInfo (-1) pts pictType (make_Shape frameWidth frameHeight)],
              prev) /\
    main_std (before ++ [(pts, pictType, [])]) pts0 pictType0 frameWidth frameHeight
      = Some (printed ++ prev) /\
    Forall blank (tl prev).
Proof.
  intros Hw Hh. split; [reflexivity|].
  destruct (main_loop_std_total frameWidth frameHeight (before ++ [(pts, pictType, [])])
              Hw Hh 1 [] []) as (prev & printed & E).
  exists prev, printed. split; [exact E|]. split; [apply flush_call_after_gap|].
  split.
  - unfold main_std. rewrite E, flush_call_after_gap. reflexivity.
  - destruct (buffer_shape _ _ _ _ _ _ _ _ E)
      as [[_ ->] | (b & p' & t' & m' & run & cur & _ & _ & _ & _ & ->)].
    + cbn [app].
      pose proof (blank_frames_blank (before ++ [(pts, pictType, [])]) 1
                    (make_Shape frameWidth frameHeight)) as Hb.
      destruct (blank_frames _ _ _); [constructor|].
      inversion Hb; assumption.
    + cbn [tl]. apply blank_frames_blank.
Qed.

Lemma flush_after_frame_without_vectors_witness :
  16 <= 32 /\
  main_std ([(1, "P"%char, [mkMV 0 0 1 3])] ++ [(2, "P"%char, [])]) 0 "?" 32 32
    = Some ([sample_prev] ++ [sample_prev; sample_gap]).
Proof.
  assert (Hw : 16 <= 32) by lia.
  split; [exact Hw|].
  destruct (flush_after_frame_without_vectors [(1, "P"%char, [mkMV 0 0 1 3])] 2 "P" 0 "?"
              32 32 Hw Hw) as (_ & prev & printed & E & _ & Em & _).
  assert (E' : main_loop_std ([(1, "P"%char, [mkMV 0 0 1 3])] ++ [(2, "P"%char, [])])
                 1 [] [] 32 32 = Some ([sample_prev; sample_gap], [sample_prev]))
    by reflexivity.
  pose proof (eq_trans (eq_sym E') E) as H. injection H as <- <-. exact Em.
Defined.

(** ** More on the packet loop *)

Section FrameSourceMore.
Variable decoder : Type.
Variable avcodec_decode_video2 : decoder -> AVPacket -> Z * Z * decoder.
Variable videoStreamIndex : Z.

Local Abbreviation attempt := (process_frame decoder avcodec_decode_video2).
Local Abbreviation pull := (read_packets_loop decoder avcodec_decode_video2 videoStreamIndex).
Local Abbreviation run := (pulls decoder avcodec_decode_video2 videoStreamIndex).

(** What [process_frame] does to the packet it is given. *)
Lemma process_frame_view (orig p : AVPacket) (d : decoder) :
  view_of orig p ->
  exists got p' d' ret got_frame,
    attempt p d = (got, p', d', Decode p ret got_frame) /\ view_of orig p' /\
    (got = true <-> yields_frame ret got_frame).
Proof.
  intros (Hs & Hd & He & Hz). unfold process_frame, yields_frame.
  destruct (avcodec_decode_video2 d p) as [[ret got_frame] d'].
  destruct (Z.ltb_spec ret 0).
  - exists false, p, d', ret, got_frame. split; [reflexivity|].
    split; [repeat split; assumption|]. split; [discriminate|lia].
  - exists (0 <? got_frame), (advance p (Z.min ret (size p))), d', ret, got_frame.
    split; [reflexivity|]. split.
    + unfold view_of, advance. cbn. lia.
    + rewrite Z.ltb_lt. lia.
Qed.

Lemma process_frame_blank (d : decoder) :
  exists got p' d' ret got_frame,
    attempt blank_packet d = (got, p', d', Decode blank_packet ret got_frame) /\
    (got = true <-> yields_frame ret got_frame).
Proof.
  destruct (process_frame_view blank_packet blank_packet d) as (g & p' & d' & r & gf & E & _ & H).
  { unfold view_of. cbn. lia. }
  exists g, p', d', r, gf. split; assumption.
Qed.
Lemma advance_view (orig p : AVPacket) (ret : Z) :
  view_of orig p -> 0 <= ret -> view_of orig (advance p (Z.min ret (size p))).
Proof. unfold view_of, advance. cbn. lia. Qed.

Lemma pull_false (q : list AVPacket) : forall (s : statics) (d : decoder),
  returned _ (pull q s d) = false ->
  container _ (pull q s d) = [] /\
  exists before ret got_frame,
    calls _ (pull q s d) = before ++ [Read None; Decode blank_packet ret got_frame] /\
    ~ yields_frame ret got_frame.
Proof.
  induction q as [|p q IH]; intros s d; cbn [read_packets_loop].
  - destruct (initialized s).
    + destruct (process_frame_cases decoder avcodec_decode_video2 (pktCopy s) d)
        as (ret & gf & d' & _ & [[Hy ->] | [Hn [p' ->]]]); [cbn; discriminate|].
      destruct (process_frame_cases decoder avcodec_decode_video2 blank_packet d')
        as (r2 & g2 & d2 & _ & [[Hy2 ->] | [Hn2 [p2 ->]]]); cbn; [discriminate|].
      intros _. split; [reflexivity|].
      exists [Decode (pktCopy s) ret gf; Free (pkt s)], r2, g2. split; [reflexivity|exact Hn2].
    + destruct (process_frame_cases decoder avcodec_decode_video2 blank_packet d)
        as (r2 & g2 & d2 & _ & [[Hy2 ->] | [Hn2 [p2 ->]]]); cbn; [discriminate|].
      intros _. split; [reflexivity|]. exists [], r2, g2. split; [reflexivity|exact Hn2].
  - destruct (initialized s).
    + destruct (process_frame_cases decoder avcodec_decode_video2 (pktCopy s) d)
        as (ret & gf & d' & _ & [[Hy ->] | [Hn [p' ->]]]); [cbn; discriminate|].
      destruct (negb (stream_index p =? videoStreamIndex));
        cbn [earlier returned container calls]; intros H;
        destruct (IH _ _ H) as (Hc & before & r & g & -> & Hn');
        (split; [exact Hc|]); eexists; exists r, g;
        (split; [rewrite app_assoc; reflexivity|exact Hn']).
    + destruct (negb (stream_index p =? videoStreamIndex));
        cbn [earlier returned container calls]; intros H;
        destruct (IH _ _ H) as (Hc & before & r & g & -> & Hn');
        (split; [exact Hc|]); eexists; exists r, g;
        (split; [rewrite app_assoc; reflexivity|exact Hn']).
Qed.

Lemma pull_delivered (q : list AVPacket) : forall (s : statics) (d : decoder),
  delivered (calls _ (pull q s d)) ++ container _ (pull q s d) = q.
Proof.
  induction q as [|p q IH]; intros s d; cbn [read_packets_loop].
  - destruct (initialized s).
    + destruct (process_frame_cases decoder avcodec_decode_video2 (pktCopy s) d)
        as (ret & gf & d' & _ & [[Hy ->] | [Hn [p' ->]]]); [reflexivity|].
      destruct (process_frame_cases decoder avcodec_decode_video2 blank_packet d')
        as (r2 & g2 & d2 & _ & [[Hy2 ->] | [Hn2 [p2 ->]]]); reflexivity.
    + destruct (process_frame_cases decoder avcodec_decode_video2 blank_packet d)
        as (r2 & g2 & d2 & _ & [[Hy2 ->] | [Hn2 [p2 ->]]]); reflexivity.
  - destruct (initialized s).
    + destruct (process_frame_cases decoder avcodec_decode_video2 (pktCopy s) d)
        as (ret & gf & d' & _ & [[Hy ->] | [Hn [p' ->]]]); [reflexivity|].
      destruct (negb (stream_index p =? videoStreamIndex));
        cbn [earlier returned container calls app delivered]; rewrite IH; reflexivity.
    + destruct (negb (stream_index p =? videoStreamIndex));
        cbn [earlier returned container calls app delivered]; rewrite IH; reflexivity.
Qed.

Lemma pull_views (Q : list AVPacket) :
  (forall orig, In orig Q -> 0 <= size orig) ->
  forall (q : list AVPacket) (s : statics) (d : decoder),
    incl q Q -> holds_view videoStreamIndex Q s ->
    (forall p ret got_frame,
        In (Decode p ret got_frame) (calls _ (pull q s d)) ->
        offered_from videoStreamIndex Q p) /\
    holds_view videoStreamIndex Q (after _ (pull q s d)) /\
    incl (container _ (pull q s d)) Q.
Proof.
  intros Hsize.
  assert (Hflush : forall d0 (s0 : statics) (pre : list call),
            (forall p ret gf, In (Decode p ret gf) pre -> offered_from videoStreamIndex Q p) ->
            forall p ret gf,
              In (Decode p ret gf)
                 (pre ++ [Read None;
                          snd (attempt blank_packet d0)]) ->
              offered_from videoStreamIndex Q p).
  { intros d0 s0 pre Hpre p ret gf Hin. apply in_app_or in Hin.
    destruct Hin as [Hin | [Hin | [Hin | []]]]; [eapply Hpre; exact Hin|discriminate|].
    destruct (process_frame_blank d0)
      as (g & p' & d' & r & gf' & E & _).
    rewrite E in Hin. cbn in Hin. injection Hin as <- _ _. left. reflexivity. }
  induction q as [|p q IH]; intros s d Hq Hv; cbn [read_packets_loop].
  - destruct (initialized s) eqn:Ei.
    + destruct (Hv Ei) as (orig & Ho & Ht & Hview).
      assert (Hgood : offered_from videoStreamIndex Q (pktCopy s))
        by (right; exists orig; split; [exact Ho|]; split; [exact Ht|exact Hview]).
      destruct (process_frame_cases decoder avcodec_decode_video2 (pktCopy s) d)
        as (ret & gf & d' & _ & [[Hy ->] | [Hn [p' ->]]]).
      * cbn. split; [|split].
        -- intros p0 r0 g0 [Hin | []]. injection Hin as <- _ _. exact Hgood.
        -- intros _. exists orig. split; [exact Ho|]. split; [exact Ht|].
           apply advance_view; [exact Hview|apply Hy].
        -- exact Hq.
      * pose proof (Hflush d' s [Decode (pktCopy s) ret gf; Free (pkt s)]) as Hf.
        destruct (attempt blank_packet d') as [[[g2 p2] d2] ev2]. cbn. split; [|split].
        -- apply Hf. intros p0 r0 g0 [Hin | [Hin | []]]; [|discriminate].
           injection Hin as <- _ _. exact Hgood.
        -- intros Hi. discriminate.
        -- exact Hq.
    + pose proof (Hflush d s []) as Hf.
      destruct (attempt blank_packet d) as [[[g2 p2] d2] ev2]. cbn. rewrite Ei.
      split; [|split].
      * apply Hf. intros ? ? ? [].
      * intros Hi. discriminate.
      * exact Hq.
  - assert (Hp : In p Q) by (apply Hq; left; reflexivity).
    assert (Hq' : incl q Q) by (intros x Hx; apply Hq; right; exact Hx).
    assert (Hnext : forall d0 (pre : list call),
              (forall p0 ret gf, In (Decode p0 ret gf) pre -> offered_from videoStreamIndex Q p0) ->
              let o := if negb (stream_index p =? videoStreamIndex)
                       then earlier decoder (pre ++ [Read (Some p); Free p])
                                    (pull q (mkStatics false (av_free_packet p) p) d0)
                       else earlier decoder (pre ++ [Read (Some p)])
                                    (pull q (mkStatics true p p) d0) in
              (forall p0 ret gf, In (Decode p0 ret gf) (calls _ o) ->
                                 offered_from videoStreamIndex Q p0) /\
              holds_view videoStreamIndex Q (after _ o) /\ incl (container _ o) Q).
    { intros d0 pre Hpre.
      destruct (Z.eqb_spec (stream_index p) videoStreamIndex) as [Et|Et]; cbn [negb].
      - destruct (IH (mkStatics true p p) d0 Hq') as (I1 & I2 & I3).
        { intros _. exists p. split; [exact Hp|]. split; [exact Et|].
          unfold view_of. cbn. specialize (Hsize p Hp). lia. }
        cbn [earlier calls after container]. split; [|split; assumption].
        intros p0 r0 g0 Hin. apply in_app_or in Hin. destruct Hin as [Hin|Hin]; [|eapply I1; exact Hin].
        apply in_app_or in Hin. destruct Hin as [Hin | [Hin | []]]; [eapply Hpre; exact Hin|discriminate].
      - destruct (IH (mkStatics false (av_free_packet p) p) d0 Hq') as (I1 & I2 & I3).
        { intros Hi. discriminate. }
        cbn [earlier calls after container]. split; [|split; assumption].
        intros p0 r0 g0 Hin. apply in_app_or in Hin. destruct Hin as [Hin|Hin]; [|eapply I1; exact Hin].
        apply in_app_or in Hin.
        destruct Hin as [Hin | [Hin | [Hin | []]]]; [eapply Hpre; exact Hin|discriminate|discriminate]. }
    destruct (initialized s) eqn:Ei.
    + destruct (Hv Ei) as (orig & Ho & Ht & Hview).
      assert (Hgood : offered_from videoStreamIndex Q (pktCopy s))
        by (right; exists orig; split; [exact Ho|]; split; [exact Ht|exact Hview]).
      destruct (process_frame_cases decoder avcodec_decode_video2 (pktCopy s) d)
        as (ret & gf & d' & _ & [[Hy ->] | [Hn [p' ->]]]).
      * cbn. split; [|split].
        -- intros p0 r0 g0 [Hin | []]. injection Hin as <- _ _. exact Hgood.
        -- intros _. exists orig. split; [exact Ho|]. split; [exact Ht|].
           apply advance_view; [exact Hview|apply Hy].
        -- exact Hq.
      * apply (Hnext d' [Decode (pktCopy s) ret gf; Free (pkt s)]).
        intros p0 r0 g0 [Hin | [Hin | []]]; [|discriminate].
        injection Hin as <- _ _. exact Hgood.
    + apply (Hnext d []). intros ? ? ? [].
Qed.
End FrameSourceMore.

(** X10: [read_packets] returns [false] only at the end of the container:
    by then every packet has been taken from it, and the last two calls are
    the request that found the container empty and one drain attempt on the
    empty packet, which yielded no frame. *)
Theorem frames_end_with_the_container
    (decoder : Type) (avcodec_decode_video2 : decoder -> AVPacket -> Z * Z * decoder)
    (videoStreamIndex : Z) (s : statics) (q : list AVPacket) (d : decoder) :
  returned decoder (read_packets decoder avcodec_decode_video2 videoStreamIndex s q d) = false ->
  container decoder (read_packets decoder avcodec_decode_video2 videoStreamIndex s q d) = [] /\
  delivered (calls decoder (read_packets decoder avcodec_decode_video2 videoStreamIndex s q d))
    = q /\
  exists before ret got_frame,
    calls decoder (read_packets decoder avcodec_decode_video2 videoStreamIndex s q d)
      = before ++ [Read None; Decode blank_packet ret got_frame] /\
    ~ yields_frame ret got_frame.
Proof.
  unfold read_packets. intros H.
  destruct (pull_false decoder avcodec_decode_video2 videoStreamIndex q s d H) as (Hc & Hl).
  split; [exact Hc|]. split; [|exact Hl].
  pose proof (pull_delivered decoder avcodec_decode_video2 videoStreamIndex q s d) as Hd.
  rewrite Hc, app_nil_r in Hd. exact Hd.
Qed.

Lemma frames_end_with_the_container_witness :
  returned unit (read_packets unit sample_decoder 0 initial_statics [sample_packet] tt) = false /\
  delivered (calls unit (read_packets unit sample_decoder 0 initial_statics [sample_packet] tt))
    = [sample_packet].
Proof.
  assert (H : returned unit (read_packets unit sample_decoder 0 initial_statics
                               [sample_packet] tt) = false) by reflexivity.
  split; [exact H|].
  exact (proj1 (proj2 (frames_end_with_the_container unit sample_decoder 0 initial_statics
                         [sample_packet] tt H))).
Defined.

(** X12: the decoder is only ever offered bytes of packets of the target
    stream.  If no packet of the container has a negative size, every packet
    offered to the decoder in a run is the empty packet of the final drain
    or what is left of a packet of the container that belongs to the target
    stream: it starts inside that packet, ends where the packet ends, and
    its size is not negative, however many bytes the decoder reported. *)
Theorem decoder_offered_target_packets_only
    (decoder : Type) (avcodec_decode_video2 : decoder -> AVPacket -> Z * Z * decoder)
    (videoStreamIndex : Z) (n : nat) (q : list AVPacket) (d : decoder)
    (p : AVPacket) (ret got_frame : Z) :
  (forall orig, In orig q -> 0 <= size orig) ->
  In (Decode p ret got_frame)
     (pulls decoder avcodec_decode_video2 videoStreamIndex n initial_statics q d) ->
  offered_from videoStreamIndex q p.
Proof.
  intros Hsize.
  assert (G : forall n q' s d',
            incl q' q -> holds_view videoStreamIndex q s ->
            In (Decode p ret got_frame)
               (pulls decoder avcodec_decode_video2 videoStreamIndex n s q' d') ->
            offered_from videoStreamIndex q p).
  { clear n d. induction n as [|n IH]; intros q' s d' Hq Hv Hin; cbn [pulls] in Hin.
    - destruct Hin.
    - unfold read_packets in Hin.
      destruct (pull_views decoder avcodec_decode_video2 videoStreamIndex q Hsize q' s d' Hq Hv)
        as (I1 & I2 & I3).
      apply in_app_or in Hin. destruct Hin as [Hin|Hin]; [eapply I1; exact Hin|].
      destruct (returned decoder _); [|destruct Hin].
      eapply IH; [exact I3|exact I2|exact Hin]. }
  apply (G n q initial_statics d).
  - apply incl_refl.
  - intros Hi. discriminate.
Qed.

Lemma decoder_offered_target_packets_only_witness :
  (forall orig, In orig sample_container -> 0 <= size orig) /\
  In (Decode (mkPacket 0 1002 1) 2 1)
     (pulls unit sample_eager_decoder 0 2 initial_statics sample_container tt) /\
  offered_from 0 sample_container (mkPacket 0 1002 1).
Proof.
  assert (Hs : forall orig, In orig sample_container -> 0 <= size orig).
  { intros orig [<- | [<- | [<- | []]]]; cbn; lia. }
  assert (Hin : In (Decode (mkPacket 0 1002 1) 2 1)
                   (pulls unit sample_eager_decoder 0 2 initial_statics sample_container tt)).
  { cbn. right. right. right. right. left. reflexivity. }
  split; [exact Hs|]. split; [exact Hin|].
  exact (decoder_offered_target_packets_only unit sample_eager_decoder 0 2 sample_container tt
           (mkPacket 0 1002 1) 2 1 Hs Hin).
Defined.

(** ** The arguments of main *)

Lemma parse_arguments_snoc (args : list String.string) (arg : String.string) :
  parse_arguments (args ++ [arg]) =
  if String.eqb arg "--raw"
  then (true, snd (parse_arguments args))
  else (fst (parse_arguments args), Some arg).
Proof.
  unfold parse_arguments. rewrite fold_left_app. cbn [fold_left].
  destruct (fold_left _ args (false, None)) as [raw path].
  destruct (String.eqb arg "--raw"); reflexivity.
Qed.

(** X13: the raw mode is chosen exactly when [--raw] occurs among the
    arguments, wherever it stands; the video path is the last argument that
    is not [--raw]; and the program stops with the usage message and exit
    code 1 exactly when every argument is [--raw], in particular when there
    is none. *)
Theorem arguments_of_main (args : list String.string) :
  (fst (parse_arguments args) = true <-> In "--raw"%string args) /\
  snd (parse_arguments args)
    = last (map Some (filter (fun arg => negb (String.eqb arg "--raw")) args)) None /\
  (main_arguments args = Usage 1 <-> forall arg, In arg args -> arg = "--raw"%string) /\
  (forall videoPath raw,
     main_arguments args = Run raw videoPath ->
     raw = fst (parse_arguments args) /\ In videoPath args /\ videoPath <> "--raw"%string).
Proof.
  assert (Husage : main_arguments args = Usage 1 <-> snd (parse_arguments args) = None).
  { unfold main_arguments. destruct (parse_arguments args) as [raw [path|]]; cbn;
      split; intros H; try discriminate; reflexivity. }
  assert (Hrun : forall videoPath raw, main_arguments args = Run raw videoPath ->
                 raw = fst (parse_arguments args) /\ snd (parse_arguments args) = Some videoPath).
  { unfold main_arguments. intros videoPath raw.
    destruct (parse_arguments args) as [raw' [path|]]; cbn; intros H; [|discriminate].
    injection H as <- <-. split; reflexivity. }
  assert (H3 : (fst (parse_arguments args) = true <-> In "--raw"%string args) /\
               snd (parse_arguments args)
                 = last (map Some (filter (fun arg => negb (String.eqb arg "--raw")) args)) None /\
               (snd (parse_arguments args) = None <->
                forall arg, In arg args -> arg = "--raw"%string) /\
               (forall videoPath, snd (parse_arguments args) = Some videoPath ->
                In videoPath args /\ videoPath <> "--raw"%string)).
  { clear Husage Hrun.
    induction args as [|arg args (IH1 & IH2 & IH3 & IH4)] using rev_ind.
    - cbn. repeat split; try discriminate; try tauto.
    - rewrite parse_arguments_snoc, filter_app, map_app. cbn [filter].
      destruct (String.eqb_spec arg "--raw") as [->|Hne]; cbn [negb fst snd map].
      + rewrite app_nil_r. split; [|split; [|split]].
        * split; [intros _; apply in_or_app; right; left; reflexivity|reflexivity].
        * exact IH2.
        * rewrite IH3. split.
          -- intros H a Ha. apply in_app_or in Ha. destruct Ha as [Ha | [<- | []]];
               [apply H; exact Ha|reflexivity].
          -- intros H a Ha. apply H, in_or_app. left. exact Ha.
        * intros v Hv. destruct (IH4 v Hv) as [Hin Hn].
          split; [apply in_or_app; left; exact Hin|exact Hn].
      + rewrite last_last. split; [|split; [|split]].
        * rewrite IH1. split.
          -- intros H. apply in_or_app. left. exact H.
          -- intros H. apply in_app_or in H. destruct H as [H | [H | []]]; [exact H|].
             congruence.
        * reflexivity.
        * split; [discriminate|]. intros H. exfalso. apply Hne, H, in_or_app.
          right. left. reflexivity.
        * intros v Hv. injection Hv as <-.
          split; [apply in_or_app; right; left; reflexivity|exact Hne]. }
  destruct H3 as (H1 & H2 & H3 & H4).
  split; [exact H1|]. split; [exact H2|]. split; [rewrite Husage; exact H3|].
  intros videoPath raw H. destruct (Hrun videoPath raw H) as [Hr Hp].
  split; [exact Hr|]. apply H4. exact Hp.
Qed.

Lemma arguments_of_main_witness :
  main_arguments ["a.mp4"; "--raw"; "b.mp4"]%string = Run true "b.mp4"%string /\
  In "b.mp4"%string ["a.mp4"; "--raw"; "b.mp4"]%string.
Proof.
  assert (E : main_arguments ["a.mp4"; "--raw"; "b.mp4"]%string = Run true "b.mp4"%string)
    by reflexivity.
  split; [exact E|].
  exact (proj1 (proj2 (proj2 (proj2 (proj2 (arguments_of_main
           ["a.mp4"; "--raw"; "b.mp4"]%string))) "b.mp4"%string true E))).
Defined.

(** ** ffmpeg_init *)

Lemma ffmpeg_init_loop_skip (before rest : list AVStream) : forall (i w0 h0 : Z),
  Forall (fun s => ~ is_video s) before ->
  ffmpeg_init_loop (before ++ rest) i w0 h0
    = ffmpeg_init_loop rest (i + Z.of_nat (length before)) w0 h0.
Proof.
  induction before as [|st before IH]; intros i w0 h0 Hb; cbn [app ffmpeg_init_loop length].
  - rewrite Z.add_0_r. reflexivity.
  - inversion Hb as [|? ? Hst Hrest]; subst. unfold is_video in Hst.
    destruct (Z.eqb_spec AVMEDIA_TYPE_VIDEO (codec_type st)) as [E|_]; [congruence|].
    cbn [andb]. rewrite IH by exact Hrest. f_equal. lia.
Qed.

Lemma first_video_or_none (streams : list AVStream) :
  Forall (fun s => ~ is_video s) streams \/
  exists before st later, first_video streams before st later.
Proof.
  induction streams as [|st streams IH].
  - left. constructor.
  - destruct (Z.eq_dec (codec_type st) AVMEDIA_TYPE_VIDEO) as [E|E].
    + right. exists [], st, streams. repeat split; [constructor|exact E].
    + destruct IH as [IH | (before & v & later & -> & Hb & Hv)].
      * left. constructor; assumption.
      * right. exists (st :: before), v, later. repeat split; [|exact Hv].
        constructor; assumption.
Qed.

Lemma ffmpeg_init_at_first_video (streams before : list AVStream) (st : AVStream)
    (later : list AVStream) (w0 h0 : Z) :
  first_video streams before st later ->
  ffmpeg_init_loop streams 0 w0 h0 =
  if codec_opens st
  then inr (Z.of_nat (length before), to_size_t (width st), to_size_t (height st))
  else inl "Codec not found or cannot open codec."%string.
Proof.
  intros (-> & Hb & Hv). rewrite ffmpeg_init_loop_skip by exact Hb.
  cbn [ffmpeg_init_loop]. unfold is_video in Hv. rewrite Hv.
  cbn. destruct (codec_opens st); reflexivity.
Qed.

(** X14: the function succeeds exactly when the file opens, the stream
    information is found, the container has a video stream and the decoder
    of the first video stream opens; it then selects that first video stream
    (the index of a stream is its position, counted from 0) and reports its
    width and height. *)
Theorem ffmpeg_init_selects_first_video_stream (open_input find_stream_info : Z)
    (streams : list AVStream) (w0 h0 : Z) (videoStreamIndex frameWidth frameHeight : Z) :
  ffmpeg_init open_input find_stream_info streams w0 h0
    = Initialized videoStreamIndex frameWidth frameHeight <->
  open_input = 0 /\ 0 <= find_stream_info /\
  exists before st later,
    first_video streams before st later /\ codec_opens st = true /\
    videoStreamIndex = Z.of_nat (length before) /\
    frameWidth = to_size_t (width st) /\ frameHeight = to_size_t (height st).
Proof.
  unfold ffmpeg_init.
  destruct (Z.eqb_spec open_input 0) as [Eo|Eo]; cbn [negb];
    [|split; [discriminate|intros [H _]; contradiction]].
  destruct (Z.ltb_spec find_stream_info 0) as [Ef|Ef];
    [split; [discriminate|intros (_ & H & _); lia]|].
  destruct (first_video_or_none streams) as [Hnone | (before & st & later & Hfv)].
  - pose proof (ffmpeg_init_loop_skip streams [] 0 w0 h0 Hnone) as E.
    rewrite app_nil_r in E. rewrite E. cbn.
    split; [discriminate|].
    intros (_ & _ & b & v & l & (-> & _ & Hv) & _).
    apply Forall_app in Hnone. destruct Hnone as [_ Hn]. inversion Hn. contradiction.
  - rewrite (ffmpeg_init_at_first_video streams before st later w0 h0 Hfv).
    assert (Huniq : forall b v l, first_video streams b v l -> b = before /\ v = st).
    { intros b v l Hfv'.
      pose proof (ffmpeg_init_at_first_video streams before st later w0 h0 Hfv) as E1.
      pose proof (ffmpeg_init_at_first_video streams b v l w0 h0 Hfv') as E2.
      destruct Hfv as (Es & Hb & Hv). destruct Hfv' as (Es' & Hb' & Hv').
      clear E1 E2. subst streams. revert b Es' Hb'.
      induction before as [|x before IH]; intros b Es' Hb'.
      - destruct b as [|y b]; cbn in Es'.
        + injection Es' as ->. split; reflexivity.
        + injection Es' as -> _. inversion Hb'; contradiction.
      - destruct b as [|y b]; cbn in Es'.
        + injection Es' as <- _. inversion Hb; contradiction.
        + injection Es' as <- Es'. inversion Hb; subst. inversion Hb'; subst.
          destruct (IH ltac:(assumption) b Es' ltac:(assumption)) as [-> ->].
          split; reflexivity. }
    destruct (codec_opens st) eqn:Eopen.
    + destruct (Z.eqb_spec (Z.of_nat (length before)) (-1)) as [Hbad|_]; [lia|].
      split.
      * intros H. injection H as <- <- <-. split; [exact Eo|]. split; [exact Ef|].
        exists before, st, later. repeat split; try assumption; apply Hfv.
      * intros (_ & _ & b & v & l & Hfv' & _ & -> & -> & ->).
        destruct (Huniq b v l Hfv') as [-> ->]. reflexivity.
    + split; [discriminate|].
      intros (_ & _ & b & v & l & Hfv' & Ho & _).
      destruct (Huniq b v l Hfv') as [_ ->]. congruence.
Qed.

Lemma ffmpeg_init_selects_first_video_stream_witness :
  ffmpeg_init 0 0 [sample_audio; sample_video; sample_video_closed] 0 0
    = Initialized 1 320 240 /\
  0 <= 0.
Proof.
  assert (E : ffmpeg_init 0 0 [sample_audio; sample_video; sample_video_closed] 0 0
              = Initialized 1 320 240) by reflexivity.
  split; [exact E|].
  exact (proj1 (proj2 (proj1 (ffmpeg_init_selects_first_video_stream 0 0
           [sample_audio; sample_video; sample_video_closed] 0 0 1 320 240) E))).
Defined.

(** X15: the ways the function fails, in the order it checks them: the file
    does not open; the stream information is not found; there is no video
    stream; the decoder of the first video stream is not found or does not
    open, in which case no later video stream is tried. *)
Theorem ffmpeg_init_failures (open_input find_stream_info : Z)
    (streams : list AVStream) (w0 h0 : Z) :
  (open_input <> 0 ->
   ffmpeg_init open_input find_stream_info streams w0 h0
     = Thrown "Couldn't open file. Possibly it doesn't exist."%string) /\
  (open_input = 0 -> find_stream_info < 0 ->
   ffmpeg_init open_input find_stream_info streams w0 h0
     = Thrown "Stream information not found."%string) /\
  (open_input = 0 -> 0 <= find_stream_info ->
   Forall (fun s => ~ is_video s) streams ->
   ffmpeg_init open_input find_stream_info streams w0 h0 = Thrown "Video stream not found."%string) /\
  (forall before st later,
     open_input = 0 -> 0 <= find_stream_info ->
     first_video streams before st later -> codec_opens st = false ->
     ffmpeg_init open_input find_stream_info streams w0 h0
       = Thrown "Codec not found or cannot open codec."%string).
Proof.
  unfold ffmpeg_init. split; [|split; [|split]].
  - intros H. destruct (Z.eqb_spec open_input 0); [contradiction|reflexivity].
  - intros -> H. cbn. destruct (Z.ltb_spec find_stream_info 0); [reflexivity|lia].
  - intros -> Hf Hnone. cbn. destruct (Z.ltb_spec find_stream_info 0); [lia|].
    pose proof (ffmpeg_init_loop_skip streams [] 0 w0 h0 Hnone) as E.
    rewrite app_nil_r in E. rewrite E. reflexivity.
  - intros before st later -> Hf Hfv Hclosed. cbn.
    destruct (Z.ltb_spec find_stream_info 0); [lia|].
    rewrite (ffmpeg_init_at_first_video streams before st later w0 h0 Hfv), Hclosed.
    reflexivity.
Qed.

Lemma ffmpeg_init_failures_witness :
  (0 : Z) = 0 /\ 0 <= 0 /\
  first_video [sample_audio; sample_video_closed; sample_video]
              [sample_audio] sample_video_closed [sample_video] /\
  codec_opens sample_video_closed = false /\
  ffmpeg_init 0 0 [sample_audio; sample_video_closed; sample_video] 0 0
    = Thrown "Codec not found or cannot open codec."%string.
Proof.
  assert (Hfv : first_video [sample_audio; sample_video_closed; sample_video]
                            [sample_audio] sample_video_closed [sample_video]).
  { split; [reflexivity|]. split; [|reflexivity].
    constructor; [|constructor]. unfold is_video. cbn. discriminate. }
  split; [reflexivity|]. split; [lia|]. split; [exact Hfv|]. split; [reflexivity|].
  exact (proj2 (proj2 (proj2 (ffmpeg_init_failures 0 0
           [sample_audio; sample_video_closed; sample_video] 0 0)))
           [sample_audio] sample_video_closed [sample_video] eq_refl (Z.le_refl 0) Hfv eq_refl).
Defined.

(** ** read_frame and the loop of main *)

Lemma last_cons_default {A : Type} (x d : A) (l : list A) : last (x :: l) d = last l x.
Proof.
  revert x d. induction l as [|y l IH]; intros x d; [reflexivity|].
  change (last (x :: y :: l) d) with (last (y :: l) d). rewrite !IH. reflexivity.
Qed.

Lemma main_loop_std_printed (frameWidth frameHeight : Z) (frames : list decoded) :
  forall frameIndex prev printed,
    main_loop_std frames frameIndex prev printed frameWidth frameHeight =
    match main_loop_std frames frameIndex prev [] frameWidth frameHeight with
    | Some (prev', later) => Some (prev', printed ++ later)
    | None => None
    end.
Proof.
  induction frames as [|[[pts pictType] mvs] rest IH]; intros frameIndex prev printed;
    cbn [main_loop_std].
  - rewrite app_nil_r. reflexivity.
  - destruct (output_vectors_std prev frameIndex pts pictType mvs frameWidth frameHeight)
      as [[p1 now]|]; [|reflexivity].
    rewrite (IH (frameIndex + 1) p1 (printed ++ now)), (IH (frameIndex + 1) p1 ([] ++ now)).
    destruct (main_loop_std rest (frameIndex + 1) p1 [] frameWidth frameHeight) as [[p2 l]|];
      [|reflexivity].
    cbn [app]. rewrite app_assoc. reflexivity.
Qed.

Lemma to_int64_range (z : Z) : INT64_MIN <= to_int64 z <= INT64_MAX.
Proof.
  unfold to_int64, INT64_MIN, INT64_MAX.
  pose proof (Z.mod_pos_bound (z + 2 ^ 63) (2 ^ 64) ltac:(lia)). lia.
Qed.

Lemma to_int64_small (z : Z) : INT64_MIN <= z <= INT64_MAX -> to_int64 z = z.
Proof.
  unfold to_int64, INT64_MIN, INT64_MAX. intros H.
  rewrite Z.mod_small by lia. lia.
Qed.

Lemma to_int64_add (a b : Z) : to_int64 (to_int64 a + b) = to_int64 (a + b).
Proof.
  unfold to_int64. f_equal.
  replace ((a + 2 ^ 63) mod 2 ^ 64 - 2 ^ 63 + b + 2 ^ 63)
    with ((a + 2 ^ 63) mod 2 ^ 64 + b) by lia.
  rewrite Z.add_mod_idemp_l by lia. f_equal. lia.
Qed.

Section ReadingFacts.
Variable decoder : Type.
Variable avcodec_decode_video2 : decoder -> AVPacket -> Z * Z * decoder.
Variable videoStreamIndex : Z.
Variable pFrame : decoder -> AVFrame.

Local Abbreviation reading := (read_frame decoder avcodec_decode_video2 videoStreamIndex pFrame).
Local Abbreviation stream := (frames_read decoder avcodec_decode_video2 videoStreamIndex pFrame).
Local Abbreviation program := (main_for decoder avcodec_decode_video2 videoStreamIndex pFrame).
Local Abbreviation fed :=
  (frames_delivered decoder avcodec_decode_video2 videoStreamIndex pFrame).

Lemma frames_delivered_untimed (n : nat) :
  (forall d, pkt_pts (pFrame d) = AV_NOPTS_VALUE /\ pkt_dts (pFrame d) = AV_NOPTS_VALUE) ->
  forall s q d pts pictType mvs,
    map (fun v : decoded => fst (fst v)) (fed n s q d (pts, pictType, mvs))
      = map (fun k => to_int64 (pts + 1 + Z.of_nat k))
            (seq 0 (length (fed n s q d (pts, pictType, mvs)))).
Proof.
  intros Hno. induction n as [|n IH]; intros s q d pts pictType mvs;
    cbn [frames_delivered]; [reflexivity|].
  unfold read_frame.
  destruct (returned decoder _) eqn:Er; cbn [negb]; [|reflexivity].
  destruct (Hno (dec decoder (read_packets decoder avcodec_decode_video2 videoStreamIndex
                                s q d))) as [Ep Ed].
  rewrite Ep, Ed, Z.eqb_refl. cbn [negb].
  cbn [map length seq fst]. rewrite IH.
  rewrite Z.add_0_r. f_equal.
  rewrite <- seq_shift, map_map. apply map_ext. intros k.
  rewrite <- Z.add_assoc, to_int64_add. f_equal. lia.
Qed.

(** When the reading ends within [fuel] calls, the frames read are the
    frames those calls deliver. *)
Lemma frames_read_delivered (fuel : nat) :
  forall s q d vars frames,
    stream fuel s q d vars = Some frames -> fed fuel s q d vars = frames.
Proof.
  induction fuel as [|fuel IH]; intros s q d vars frames E;
    cbn [frames_read] in E; [discriminate|].
  cbn [frames_delivered].
  destruct (reading s q d vars) as [[ok vars'] o].
  destruct ok; [|injection E as <-; reflexivity].
  destruct (stream fuel _ _ _ _) as [rest|] eqn:Erest; [|discriminate].
  cbn in E. injection E as <-. f_equal. apply IH. exact Erest.
Qed.

Lemma main_for_follows (fuel : nat) (frameWidth frameHeight : Z) :
  forall frameIndex s q d vars prev out frames,
    stream fuel s q d vars = Some frames ->
    program fuel true frameIndex s q d vars prev out frameWidth frameHeight
      = Some (Some (out ++ main_loop_raw frames frameIndex)) /\
    program fuel false frameIndex s q d vars prev out frameWidth frameHeight
      = Some match main_loop_std frames frameIndex prev [] frameWidth frameHeight with
             | Some (prev', printed) =>
                 let '(pts, pictType, mvs) := last frames vars in
                 match output_vectors_std prev' (-1) pts pictType mvs
                                          frameWidth frameHeight with
                 | Some (_, now) => Some (out ++ flat_map Print (printed ++ now))
                 | None => None
                 end
             | None => None
             end.
Proof.
  induction fuel as [|fuel IH]; intros frameIndex s q d vars prev out frames E;
    cbn [frames_read] in E; [discriminate|].
  cbn [main_for].
  destruct (reading s q d vars) as [[ok vars'] o].
  destruct ok.
  - destruct (stream fuel _ _ _ vars') as [rest|] eqn:Erest; [|discriminate].
    cbn in E. injection E as <-.
    destruct vars' as [[pts pictType] mvs].
    split.
    + destruct (IH (frameIndex + 1) _ _ _ _ prev
                  (out ++ output_vectors_raw frameIndex pts pictType mvs) rest Erest) as [-> _].
      cbn [main_loop_raw]. rewrite app_assoc. reflexivity.
    + cbn [main_loop_std]. rewrite last_cons_default.
      destruct (output_vectors_std prev frameIndex pts pictType mvs frameWidth frameHeight)
        as [[p1 now]|]; [|reflexivity].
      destruct (IH (frameIndex + 1) _ _ _ _ p1 (out ++ flat_map Print now) rest Erest)
        as [_ ->].
      rewrite (main_loop_std_printed frameWidth frameHeight rest (frameIndex + 1) p1 ([] ++ now)).
      destruct (main_loop_std rest (frameIndex + 1) p1 [] frameWidth frameHeight)
        as [[p2 later]|]; [|reflexivity].
      destruct (last rest (pts, pictType, mvs)) as [[lp lt] lm].
      destruct (output_vectors_std p2 (-1) lp lt lm frameWidth frameHeight) as [[p3 fin]|];
        [|reflexivity].
      cbn [app]. rewrite <- app_assoc, <- flat_map_app, app_assoc. reflexivity.
  - injection E as <-. cbn [main_loop_raw main_loop_std last negb].
    split; [rewrite app_nil_r; reflexivity|].
    destruct vars as [[pts pictType] mvs].
    destruct (output_vectors_std prev (-1) pts pictType mvs frameWidth frameHeight)
      as [[p3 fin]|]; reflexivity.
Qed.
End ReadingFacts.

(** X16: when the decoded frames carry neither of the two timestamps, the
    frames delivered get consecutive timestamps, whether or not the reading
    ever ends: among the frames the first [n] calls of [read_frame] deliver,
    the first has one more than the value [pts] had before the loop and
    each of the others one more than the frame before it, the addition
    being that of [int64_t], which wraps around from [INT64_MAX] to
    [INT64_MIN].  As long as the count stays within the range of the type,
    these are the exact values [pts0 + 1], [pts0 + 2], ...; and when the
    reading does end, the frames read are the frames so delivered. *)
Theorem frames_without_timestamps_are_counted
    (decoder : Type) (avcodec_decode_video2 : decoder -> AVPacket -> Z * Z * decoder)
    (videoStreamIndex : Z) (pFrame : decoder -> AVFrame) (n : nat)
    (s : statics) (q : list AVPacket) (d : decoder)
    (pts0 : Z) (pictType0 : ascii) (mvs0 : list AVMotionVector) :
  (forall d', pkt_pts (pFrame d') = AV_NOPTS_VALUE /\ pkt_dts (pFrame d') = AV_NOPTS_VALUE) ->
  forall frames,
    frames = frames_delivered decoder avcodec_decode_video2 videoStreamIndex pFrame n s q d
                              (pts0, pictType0, mvs0) ->
    map (fun v : decoded => fst (fst v)) frames
      = map (fun k => to_int64 (pts0 + 1 + Z.of_nat k)) (seq 0 (length frames)) /\
    (INT64_MIN <= pts0 -> pts0 + Z.of_nat (length frames) <= INT64_MAX ->
     map (fun v : decoded => fst (fst v)) frames
       = map (fun k => pts0 + 1 + Z.of_nat k) (seq 0 (length frames))) /\
    (forall read,
        frames_read decoder avcodec_decode_video2 videoStreamIndex pFrame n s q d
                    (pts0, pictType0, mvs0) = Some read ->
        read = frames).
Proof.
  intros Hno frames ->.
  pose proof (frames_delivered_untimed decoder avcodec_decode_video2 videoStreamIndex pFrame
                n Hno s q d pts0 pictType0 mvs0) as H.
  split; [exact H|]. split.
  - intros Hlo Hhi. rewrite H. apply map_ext_in. intros k Hk.
    apply in_seq in Hk. apply to_int64_small.
    unfold decoded in *. unfold INT64_MIN, INT64_MAX in *. lia.
  - intros read E. symmetry.
    exact (frames_read_delivered decoder avcodec_decode_video2 videoStreamIndex pFrame
             n s q d _ read E).
Qed.

Lemma frames_without_timestamps_are_counted_witness :
  (forall d', pkt_pts (sample_untimed d') = AV_NOPTS_VALUE /\
              pkt_dts (sample_untimed d') = AV_NOPTS_VALUE) /\
  frames_delivered unit sample_eager_decoder 0 sample_untimed 3 initial_statics
                   sample_container tt (7, "?"%char, [])
    = [(8, "P"%char, []); (9, "P"%char, []); (10, "P"%char, [])] /\
  frames_read unit sample_eager_decoder 0 sample_untimed 3 initial_statics
              sample_container tt (7, "?"%char, []) = None /\
  map (fun v : decoded => fst (fst v)) [(8, "P"%char, []); (9, "P"%char, []); (10, "P"%char, [])]
    = map (fun k => 7 + 1 + Z.of_nat k) (seq 0 3) /\
  map (fun v : decoded => fst (fst v))
      (frames_delivered unit sample_eager_decoder 0 sample_untimed 3 initial_statics
                        sample_container tt (INT64_MAX - 1, "?"%char, []))
    = [INT64_MAX; INT64_MIN; INT64_MIN + 1].
Proof.
  assert (Hno : forall d', pkt_pts (sample_untimed d') = AV_NOPTS_VALUE /\
                           pkt_dts (sample_untimed d') = AV_NOPTS_VALUE)
    by (intros d'; split; reflexivity).
  assert (E : [(8, "P"%char, []); (9, "P"%char, []); (10, "P"%char, [])]
              = frames_delivered unit sample_eager_decoder 0 sample_untimed 3 initial_statics
                  sample_container tt (7, "?"%char, [])) by reflexivity.
  assert (Hlo : INT64_MIN <= 7) by (unfold INT64_MIN; lia).
  assert (Hhi : 7 + Z.of_nat (length [(8, "P"%char, @nil AVMotionVector);
                                      (9, "P"%char, []); (10, "P"%char, [])]) <= INT64_MAX)
    by (unfold INT64_MAX; cbn [length]; lia).
  split; [exact Hno|]. split; [symmetry; exact E|]. split; [reflexivity|]. split.
  - exact (proj1 (proj2 (frames_without_timestamps_are_counted unit sample_eager_decoder 0
                           sample_untimed 3 initial_statics sample_container tt 7 "?" []
                           Hno _ E)) Hlo Hhi).
  - rewrite (proj1 (frames_without_timestamps_are_counted unit sample_eager_decoder 0
                      sample_untimed 3 initial_statics sample_container tt
                      (INT64_MAX - 1) "?" [] Hno _ eq_refl)).
    reflexivity.
Defined.

(** X17: the loop of [main] composes [read_frame] with the two output
    functions.  When the reading ends, the raw mode writes the blocks of
    [output_vectors_raw] for the frames delivered, numbered from 1, and
    nothing after them; the grid mode writes the text of the frames
    [output_vectors_std] prints for them, followed by the text of the
    closing call, which receives the timestamp, the picture type and the
    vectors of the last frame delivered (the initial values if there was
    none). *)
Theorem main_composes_reading_and_output
    (decoder : Type) (avcodec_decode_video2 : decoder -> AVPacket -> Z * Z * decoder)
    (videoStreamIndex : Z) (pFrame : decoder -> AVFrame) (fuel : nat)
    (s : statics) (q : list AVPacket) (d : decoder)
    (pts0 : Z) (pictType0 : ascii) (frameWidth frameHeight : Z) (frames : list decoded) :
  frames_read decoder avcodec_decode_video2 videoStreamIndex pFrame fuel s q d
              (pts0, pictType0, []) = Some frames ->
  main_for decoder avcodec_decode_video2 videoStreamIndex pFrame fuel true 1 s q d
           (pts0, pictType0, []) [] [] frameWidth frameHeight
    = Some (Some (main_raw frames)) /\
  main_for decoder avcodec_decode_video2 videoStreamIndex pFrame fuel false 1 s q d
           (pts0, pictType0, []) [] [] frameWidth frameHeight
    = Some (option_map (flat_map Print) (main_std frames pts0 pictType0 frameWidth frameHeight)).
Proof.
  intros E.
  destruct (main_for_follows decoder avcodec_decode_video2 videoStreamIndex pFrame fuel
              frameWidth frameHeight 1 s q d (pts0, pictType0, []) [] [] frames E) as [Hr Hs].
  split; [exact Hr|]. rewrite Hs. unfold main_std, flush_call.
  destruct (main_loop_std frames 1 [] [] frameWidth frameHeight) as [[prev printed]|];
    [|reflexivity].
  destruct (last frames (pts0, pictType0, [])) as [[lp lt] lm].
  destruct (output_vectors_std prev (-1) lp lt lm frameWidth frameHeight) as [[p3 fin]|];
    reflexivity.
Qed.

Lemma main_composes_reading_and_output_witness :
  frames_read unit sample_whole_decoder 0 sample_untimed 3 initial_statics sample_container tt
              (7, "?"%char, [])
    = Some [(8, "P"%char, []); (9, "P"%char, [])] /\
  main_for unit sample_whole_decoder 0 sample_untimed 3 true 1 initial_statics
           sample_container tt (7, "?"%char, []) [] [] 32 32
    = Some (Some [RawHeader 8 1 "P" 0; RawHeader 9 2 "P" 0]).
Proof.
  assert (E : frames_read unit sample_whole_decoder 0 sample_untimed 3 initial_statics
                sample_container tt (7, "?"%char, [])
              = Some [(8, "P"%char, []); (9, "P"%char, [])]) by reflexivity.
  split; [exact E|].
  exact (proj1 (main_composes_reading_and_output unit sample_whole_decoder 0 sample_untimed 3
                  initial_statics sample_container tt 7 "?" 32 32 _ E)).
Defined.

(** ** How often a frame is printed *)

Lemma main_loop_std_all_vectors (frameWidth frameHeight : Z) (frames : list decoded) :
  16 <= frameWidth -> 16 <= frameHeight -> Forall has_vectors frames ->
  forall frameIndex c printed,
  exists c' printed',
    main_loop_std frames frameIndex [c] printed frameWidth frameHeight = Some ([c'], printed') /\
    length printed' = (length printed + 2 * length frames)%nat.
Proof.
  intros Hw Hh Hall. induction Hall as [|[[pts pictType] mvs] rest Hd _ IH];
    intros frameIndex c printed; cbn [main_loop_std].
  - exists c, printed. split; [reflexivity|]. cbn; lia.
  - unfold has_vectors, mvs_of in Hd. cbn in Hd.
    destruct (aggregate_total frameIndex pts pictType mvs frameWidth frameHeight Hw Hh)
      as [cur Hcur].
    destruct (output_vectors_std_vectors [c] _ _ _ _ _ _ cur Hd Hcur) as (b & -> & ->).
    destruct (IH (frameIndex + 1) cur (printed ++ [c] ++ [cur])) as (c' & printed' & -> & Hl).
    exists c', printed'. split; [reflexivity|].
    rewrite Hl, length_app. cbn [length app]. lia.
Qed.

Lemma last_has_vectors (frames : list decoded) (d : decoded) :
  Forall has_vectors frames -> frames <> [] -> has_vectors (last frames d).
Proof.
  intros Hall Hne. destruct frames as [|x rest]; [congruence|]. clear Hne.
  inversion Hall as [|? ? Hx Hrest]; subst. rewrite last_cons_default. clear Hall.
  revert x Hx. induction Hrest as [|y l Hy _ IH]; intros x Hx.
  - exact Hx.
  - rewrite last_cons_default. apply IH. exact Hy.
Qed.

(** X18: a frame with vectors is printed when it arrives and stays in the
    buffer, and the next frame with vectors prints the buffer again before
    itself.  So for a stream of n >= 1 frames that all carry vectors, in a
    stream of at least 16x16 pixels, the loop prints 2n - 1 frames, and the
    whole run, with the closing call, 2n + 1. *)
Theorem frames_with_vectors_are_printed_twice (frames : list decoded) (pts0 : Z)
    (pictType0 : ascii) (frameWidth frameHeight : Z) :
  16 <= frameWidth -> 16 <= frameHeight -> Forall has_vectors frames -> frames <> [] ->
  exists prev printed all,
    main_loop_std frames 1 [] [] frameWidth frameHeight = Some (prev, printed) /\
    length prev = 1%nat /\
    length printed = (2 * length frames - 1)%nat /\
    main_std frames pts0 pictType0 frameWidth frameHeight = Some all /\
    length all = (2 * length frames + 1)%nat.
Proof.
  intros Hw Hh Hall Hne.
  assert (E1 : exists c' printed,
            main_loop_std frames 1 [] [] frameWidth frameHeight = Some ([c'], printed) /\
            length printed = (2 * length frames - 1)%nat).
  { destruct frames as [|[[pts pictType] mvs] rest]; [congruence|].
    inversion Hall as [|? ? Hd Hrest]; subst.
    unfold has_vectors, mvs_of in Hd. cbn in Hd.
    cbn [main_loop_std].
    destruct (aggregate_total 1 pts pictType mvs frameWidth frameHeight Hw Hh) as [cur Hcur].
    destruct (output_vectors_std_vectors [] _ _ _ _ _ _ cur Hd Hcur) as (b & -> & ->).
    destruct (main_loop_std_all_vectors frameWidth frameHeight rest Hw Hh Hrest (1 + 1) cur
                ([] ++ [] ++ [cur])) as (c' & printed & -> & Hl).
    exists c', printed. split; [reflexivity|]. cbn [length app] in *.
    unfold decoded in *. lia. }
  destruct E1 as (c' & printed & E1 & Hl).
  assert (E2 : exists p2 now,
            flush_call frames pts0 pictType0 [c'] frameWidth frameHeight = Some (p2, now) /\
            length now = 2%nat).
  { unfold flush_call.
    pose proof (last_has_vectors frames (pts0, pictType0, []) Hall Hne) as Hlast.
    destruct (last frames (pts0, pictType0, [])) as [[lp lt] lm].
    unfold has_vectors, mvs_of in Hlast. cbn in Hlast.
    destruct (aggregate_total (-1) lp lt lm frameWidth frameHeight Hw Hh) as [extra Hextra].
    destruct (output_vectors_std_vectors [c'] _ _ _ _ _ _ extra Hlast Hextra) as (b2 & -> & ->).
    eexists. eexists. split; reflexivity. }
  destruct E2 as (p2 & now & E2 & Hn).
  exists [c'], printed, (printed ++ now).
  split; [exact E1|]. split; [reflexivity|]. split; [exact Hl|].
  split; [unfold main_std; rewrite E1, E2; reflexivity|].
  rewrite length_app, Hl, Hn. destruct frames; [congruence|]. cbn [length]. lia.
Qed.

Lemma frames_with_vectors_are_printed_twice_witness :
  16 <= 32 /\ Forall has_vectors sample_pair /\ sample_pair <> [] /\
  exists all, main_std sample_pair 0 "?" 32 32 = Some all /\ length all = 5%nat.
Proof.
  assert (Hw : 16 <= 32) by lia.
  assert (Hall : Forall has_vectors sample_pair) by (repeat constructor; discriminate).
  assert (Hne : sample_pair <> []) by discriminate.
  split; [exact Hw|]. split; [exact Hall|]. split; [exact Hne|].
  destruct (frames_with_vectors_are_printed_twice sample_pair 0 "?" 32 32 Hw Hw Hall Hne)
    as (prev & printed & all & _ & _ & _ & E & Hl).
  exists all. split; [exact E|exact Hl].
Defined.

(** ** Size of the raw output *)

Lemma output_vectors_raw_length (frameIndex pts : Z) (pictType : ascii)
    (mvs : list AVMotionVector) :
  length (output_vectors_raw frameIndex pts pictType mvs) = S (length mvs).
Proof.
  unfold output_vectors_raw, for_range. rewrite Nat2Z.id.
  rewrite (raw_loop mvs (length mvs) 0) by lia.
  cbn [skipn]. rewrite firstn_all. cbn. rewrite length_map. reflexivity.
Qed.

(** X19: in raw mode the run writes one line for every decoded frame and
    one line for every vector of every frame, and nothing else: the number
    of lines is the number of frames plus the total number of vectors. *)
Theorem raw_output_size (frames : list decoded) :
  length (main_raw frames)
    = (length frames + list_sum (map (fun d => length (mvs_of d)) frames))%nat.
Proof.
  unfold main_raw. generalize 1 as frameIndex.
  induction frames as [|[[pts pictType] mvs] rest IH]; intros frameIndex;
    cbn [main_loop_raw length map list_sum]; [reflexivity|].
  rewrite length_app, output_vectors_raw_length, IH.
  change (mvs_of (pts, pictType, mvs)) with mvs. unfold list_sum. cbn [fold_right].
  unfold decoded. lia.
Qed.
